(** * Movie review platform: the Express server of [backend/server.js]

    A shallow embedding of the in-memory store, the rating aggregator,
    the catalog listing, the review and watchlist mutators and the route
    table, followed by the properties of the platform's specification.

    Modelling conventions.
    - JavaScript arrays are lists; [push] appends at the end.
    - Identifiers, years and star ratings are integers ([Z]); the JSON
      bodies are taken to carry them as JSON numbers.  The validator of
      [rating] also lets a JSON string of digits through, which the
      server stores as it came; module [Rating] renders the validator
      and the aggregator's arithmetic over both kinds of value, and shows
      where the two readings part.
    - [averageRating] is a JavaScript number with one decimal; it is
      modelled as an exact rational ([Q]).  The source computes
      [Math.round((sum / n) * 10) / 10] on IEEE doubles; module [Double]
      renders that arithmetic in binary64, and a lemma below checks
      that both readings pick the same tenth for every sum of up to 50
      ratings in 1..5.
    - Strings are [string]s of 8-bit characters; case folding is the ASCII
      one.
    - Library calls whose result the server only stores or forwards
      (bcrypt, jsonwebtoken, [isEmail], [normalizeEmail],
      [encodeURIComponent], [localeCompare]) are parameters of the
      development. *)

From Stdlib Require Import List ZArith QArith Qround String Ascii Bool Lia.
From Stdlib Require Import Sorted Permutation DecimalString Lqa SpecFloat.
Import ListNotations.

Set Implicit Arguments.

(** ** JavaScript built-ins used by the server *)

Module JS.

(** [Array.prototype.findIndex]: index of the first match, or -1. *)
Fixpoint findIndex {A} (p : A -> bool) (l : list A) : Z :=
  match l with
  | [] => (-1)%Z
  | x :: l' =>
      if p x then 0%Z
      else let i := findIndex p l' in
           if (i <? 0)%Z then (-1)%Z else (i + 1)%Z
  end.

(** Clamping of a relative index as [Array.prototype.slice] does it. *)
Definition relIndex (len i : Z) : Z :=
  if (i <? 0)%Z then Z.max (len + i) 0 else Z.min i len.

(** [Array.prototype.slice(start, end)] on integer arguments. *)
Definition slice {A} (l : list A) (start stop : Z) : list A :=
  let len := Z.of_nat (List.length l) in
  let k := relIndex len start in
  let final := relIndex len stop in
  firstn (Z.to_nat (Z.max (final - k) 0)) (skipn (Z.to_nat k) l).

(** [Array.prototype.splice(i, 1)] for an index [0 <= i]. *)
Definition splice1 {A} (l : list A) (i : Z) : list A :=
  firstn (Z.to_nat i) l ++ skipn (S (Z.to_nat i)) l.

(** [Array.prototype.sort(cmp)].  ECMAScript requires the sort to be
    stable; for a consistent comparator the result is therefore the
    unique stable arrangement, computed here by insertion. *)
Fixpoint insert {A} (cmp : A -> A -> Q) (x : A) (l : list A) : list A :=
  match l with
  | [] => [x]
  | y :: l' =>
      if Qle_bool (cmp x y) 0 then x :: y :: l'
      else y :: insert cmp x l'
  end.

Definition sort {A} (cmp : A -> A -> Q) (l : list A) : list A :=
  fold_right (insert cmp) [] l.

(** [Math.round]: nearest integer, halves towards plus infinity. *)
Definition Math_round (x : Q) : Z := Qfloor (x + (1 # 2)).

(** [Math.ceil(a / b)] for integers [a], [b] with [b <> 0]. *)
Definition Math_ceil_div (a b : Z) : Z := (- ((- a) / b))%Z.

(** [Number.prototype.toString] on an integer. *)
Definition toString (z : Z) : string :=
  NilZero.string_of_int (Z.to_int z).

(** [String.prototype.toLowerCase], ASCII letters. *)
Definition lowerChar (c : ascii) : ascii :=
  let n := nat_of_ascii c in
  if (65 <=? n)%nat && (n <=? 90)%nat then ascii_of_nat (n + 32) else c.

Fixpoint toLowerCase (s : string) : string :=
  match s with
  | EmptyString => EmptyString
  | String c s' => String (lowerChar c) (toLowerCase s')
  end.

(** [String.prototype.includes]. *)
Fixpoint includes (s t : string) : bool :=
  String.prefix t s
  || match s with
     | EmptyString => false
     | String _ s' => includes s' t
     end.

(** Truthiness of a possibly absent string: [undefined] and the empty
    string are falsy. *)
Definition truthy (o : option string) : bool :=
  match o with
  | None => false
  | Some s => negb (String.eqb s EmptyString)
  end.

(** White space as [trim] and [parseInt] skip it. *)
Definition isSpace (c : ascii) : bool :=
  let n := nat_of_ascii c in
  (n =? 32)%nat || ((9 <=? n)%nat && (n <=? 13)%nat).

Fixpoint trimStart (s : string) : string :=
  match s with
  | EmptyString => EmptyString
  | String c s' => if isSpace c then trimStart s' else s
  end.

Fixpoint rev_string (s acc : string) : string :=
  match s with
  | EmptyString => acc
  | String c s' => rev_string s' (String c acc)
  end.

(** [String.prototype.trim]. *)
Definition trim (s : string) : string :=
  rev_string (trimStart (rev_string (trimStart s) EmptyString)) EmptyString.

(** Value of a digit in the given radix. *)
Definition digit (radix : Z) (c : ascii) : option Z :=
  let n := Z.of_nat (nat_of_ascii c) in
  let v := if (48 <=? n)%Z && (n <=? 57)%Z then (n - 48)%Z
           else if (97 <=? n)%Z && (n <=? 122)%Z then (n - 87)%Z
           else if (65 <=? n)%Z && (n <=? 90)%Z then (n - 55)%Z
           else radix in
  if (v <? radix)%Z then Some v else None.

(** Longest prefix of digits, read in the radix; [None] when the prefix
    is empty. *)
Fixpoint digits (radix : Z) (s : string) (acc : option Z) : option Z :=
  match s with
  | EmptyString => acc
  | String c s' =>
      match digit radix c with
      | None => acc
      | Some v =>
          digits radix s'
            (Some (match acc with
                   | None => v
                   | Some a => a * radix + v
                   end)%Z)
      end
  end.

(** [parseInt(s)] without a radix argument; [None] stands for [NaN]. *)
Definition parseInt (s : string) : option Z :=
  let s1 := trimStart s in
  let '(sign, s2) :=
    match s1 with
    | String "-"%char r => ((-1)%Z, r)
    | String "+"%char r => (1%Z, r)
    | _ => (1%Z, s1)
    end in
  let '(radix, s3) :=
    match s2 with
    | String "0"%char (String "x"%char r) => (16%Z, r)
    | String "0"%char (String "X"%char r) => (16%Z, r)
    | _ => (10%Z, s2)
    end in
  option_map (Z.mul sign) (digits radix s3 None).

(** Strict equality of a number with the result of [parseInt]: [NaN] is
    equal to nothing. *)
Definition eqNum (a : Z) (b : option Z) : bool :=
  match b with
  | Some b' => (a =? b')%Z
  | None => false
  end.

End JS.

(** ** The arithmetic of the aggregator on IEEE doubles *)

Module Double.

Definition prec : Z := 53.
Definition emax : Z := 1024.

(** The double of an integer. *)
Definition ofZ (z : Z) : spec_float := binary_normalize prec emax z 0 false.

Definition div : spec_float -> spec_float -> spec_float := SFdiv prec emax.
Definition mul : spec_float -> spec_float -> spec_float := SFmul prec emax.

(** [Math.round] of a double: the integer nearest to its exact value,
    halves towards plus infinity; [None] for infinities and [NaN]. *)
Definition Math_round (x : spec_float) : option Z :=
  match x with
  | S754_zero _ => Some 0%Z
  | S754_finite s m e =>
      let v := if s then Z.neg m else Z.pos m in
      Some (if (0 <=? e)%Z then v * 2 ^ e
            else (2 * v + 2 ^ (- e)) / 2 ^ (1 - e))%Z
  | _ => None
  end.

(** [Math.round((sum / n) * 10)] on doubles. *)
Definition tenths (sum n : Z) : option Z :=
  Math_round (mul (div (ofZ sum) (ofZ n)) (ofZ 10)).

(** Whether the doubles and the rationals agree on the tenth for a sum
    and a count. *)
Definition agrees (sum n : Z) : bool :=
  match tenths sum n with
  | Some k =>
      (k =? JS.Math_round ((inject_Z sum / inject_Z n) * 10))%Z
  | None => false
  end.

(** The same for every count up to [N] and every sum of that many
    ratings in 1..5. *)
Definition agreesUpTo (N : nat) : bool :=
  forallb (fun n =>
             forallb (fun s => agrees (Z.of_nat s) (Z.of_nat n))
               (seq n (4 * n + 1)))
    (seq 1 N).

End Double.

(** ** The records of the mock database *)

Module User.
Record t := mk {
  id : Z;
  username : string;
  email : string;
  password : string;
  profilePicture : string;
  joinDate : string
}.
End User.

Module Review.
Record t := mk {
  id : Z;
  movieId : Z;
  userId : Z;
  rating : Z;
  reviewText : string;
  timestamp : string
}.
End Review.

(** A review spread together with the author's public fields. *)
Module ReviewWithUser.
Record t := mk {
  review : Review.t;
  username : string;
  userProfilePicture : option string
}.
End ReviewWithUser.

Module Movie.
Record t := mk {
  id : Z;
  title : string;
  genre : list string;
  releaseYear : Z;
  director : string;
  cast : list string;
  synopsis : string;
  posterUrl : string;
  averageRating : Q;
  reviews : list ReviewWithUser.t
}.

Definition set_averageRating (m : t) (r : Q) : t :=
  mk (id m) (title m) (genre m) (releaseYear m) (director m) (cast m)
     (synopsis m) (posterUrl m) r (reviews m).

Definition set_reviews (m : t) (rs : list ReviewWithUser.t) : t :=
  mk (id m) (title m) (genre m) (releaseYear m) (director m) (cast m)
     (synopsis m) (posterUrl m) (averageRating m) rs.
End Movie.

Module WatchlistItem.
Record t := mk {
  id : Z;
  userId : Z;
  movieId : Z;
  dateAdded : string
}.
End WatchlistItem.

(** The four module-level arrays. *)
Record store := mkStore {
  movies : list Movie.t;
  users : list User.t;
  reviews : list Review.t;
  watchlists : list WatchlistItem.t
}.

Open Scope string_scope.

Definition seedMovies : list Movie.t :=
  [ Movie.mk 1 "The Shawshank Redemption" ["Drama"] 1994 "Frank Darabont"
      ["Tim Robbins"; "Morgan Freeman"; "Bob Gunton"]
      "Two imprisoned men bond over a number of years, finding solace and eventual redemption through acts of common decency."
      "https://via.placeholder.com/300x450?text=Shawshank"
      4.8 [];
    Movie.mk 2 "The Godfather" ["Crime"; "Drama"] 1972 "Francis Ford Coppola"
      ["Marlon Brando"; "Al Pacino"; "James Caan"]
      "The aging patriarch of an organized crime dynasty transfers control of his clandestine empire to his reluctant son."
      "https://via.placeholder.com/300x450?text=Godfather"
      4.7 [];
    Movie.mk 3 "Pulp Fiction" ["Crime"; "Drama"] 1994 "Quentin Tarantino"
      ["John Travolta"; "Uma Thurman"; "Samuel L. Jackson"]
      "The lives of two mob hitmen, a boxer, a gangster and his wife intertwine in four tales of violence and redemption."
      "https://via.placeholder.com/300x450?text=Pulp+Fiction"
      4.6 [] ].

Definition initialStore : store := mkStore seedMovies [] [] [].

(** ** Rating aggregator *)

(** [reviews.filter(review => review.movieId === movieId)]. *)
Definition movieReviews (st : store) (movieId : Z) : list Review.t :=
  filter (fun review => (Review.movieId review =? movieId)%Z) (reviews st).

(** [calculateAverageRating]. *)
Definition calculateAverageRating (st : store) (movieId : Z) : Q :=
  let mr := movieReviews st movieId in
  if (List.length mr =? 0)%nat then 0%Q
  else
    let sum := fold_left (fun acc review => (acc + Review.rating review)%Z) mr 0%Z in
    (inject_Z (JS.Math_round
                 ((inject_Z sum / inject_Z (Z.of_nat (List.length mr))) * 10))
     / 10)%Q.


(** ** Requests and responses *)

Inductive method := GET | POST | PUT | DELETE.

(** Outcome of [authenticateToken]: no bearer token in the header, a token
    that [jwt.verify] rejects, or the verified payload. *)
Inductive credential :=
| NoToken
| InvalidToken
| ValidToken (userId : Z) (username : string).

(** The query string of a listing request.  [page] and [limit] are the
    integers their text denotes. *)
Module Query.
Record t := mk {
  page : option Z;
  limit : option Z;
  genre : option string;
  year : option string;
  search : option string;
  sortBy : option string
}.

Definition empty : t := mk None None None None None None.
End Query.

(** The JSON body, by the shape the route reads. *)
Inductive body :=
| NoBody
| RegisterBody (username email password : string)
| LoginBody (email password : string)
| MovieBody (title : string) (genre : list string) (releaseYear : Z)
    (director : string) (cast : option (list string))
    (synopsis posterUrl : option string)
| ReviewBody (rating : Z) (reviewText : string)
| UserBody (username email profilePicture : option string)
| WatchlistBody (movieId : Z).

(** A request, with what the handler draws from its environment while it
    runs: the clock ([new Date().toISOString()]) and bcrypt's salt. *)
Module Request.
Record t := mk {
  meth : method;
  path : list string;
  query : Query.t;
  cred : credential;
  payload : body;
  now : string;
  salt : string
}.
End Request.

(** The public fields of an account. *)
Module PublicUser.
Record t := mk {
  id : Z;
  username : string;
  email : string;
  profilePicture : string
}.
End PublicUser.

(** A review spread together with its movie's title and poster. *)
Module ReviewWithMovie.
Record t := mk {
  review : Review.t;
  movieTitle : string;
  moviePoster : option string
}.
End ReviewWithMovie.

Inductive json :=
| ErrorJson (error : string)
| ErrorsJson (errors : list string)
| AuthJson (message token : string) (user : PublicUser.t)
| ListingJson (movies : list Movie.t) (totalCount : Z)
    (currentPage : option Z) (totalPages : option Z)
| MovieJson (movie : Movie.t)
| MoviesJson (movies : list Movie.t)
| ReviewsJson (reviews : list ReviewWithUser.t)
| ReviewJson (review : ReviewWithUser.t)
| ProfileJson (user : PublicUser.t) (joinDate : string)
    (reviews : list ReviewWithMovie.t)
| PublicUserJson (user : PublicUser.t)
| WatchlistJson (items : list (WatchlistItem.t * option Movie.t))
| WatchlistItemJson (item : WatchlistItem.t) (movie : Movie.t)
| MessageJson (message : string).

Module Response.
Record t := mk {
  status : Z;
  json : json
}.
End Response.

Definition respond (status : Z) (j : json) : Response.t := Response.mk status j.

(** [arr[i] = f(arr[i])] for an index inside the array. *)
Fixpoint updateAt {A} (l : list A) (i : nat) (f : A -> A) : list A :=
  match l, i with
  | [], _ => []
  | x :: l', O => f x :: l'
  | x :: l', S i' => x :: updateAt l' i' f
  end.

(** [review => ({...review, username, userProfilePicture})]. *)
Definition withUser (st : store) (review : Review.t) : ReviewWithUser.t :=
  match find (fun u => (User.id u =? Review.userId review)%Z) (users st) with
  | Some user =>
      ReviewWithUser.mk review (User.username user)
        (Some (User.profilePicture user))
  | None => ReviewWithUser.mk review "Unknown User" None
  end.

(** [review => ({...review, movieTitle, moviePoster})]. *)
Definition withMovie (st : store) (review : Review.t) : ReviewWithMovie.t :=
  match find (fun m => (Movie.id m =? Review.movieId review)%Z) (movies st) with
  | Some movie =>
      ReviewWithMovie.mk review (Movie.title movie) (Some (Movie.posterUrl movie))
  | None => ReviewWithMovie.mk review "Unknown Movie" None
  end.

Definition publicUser (u : User.t) : PublicUser.t :=
  PublicUser.mk (User.id u) (User.username u) (User.email u)
    (User.profilePicture u).

(** The length of an array as a number. *)
Definition len {A} (l : list A) : Z := Z.of_nat (List.length l).

(** ** The route handlers *)

(** Library functions the server calls, and the year in which the routes
    are registered ([new Date().getFullYear()] inside the validator of
    [releaseYear]). *)
Class Env := {
  bcrypt_hash : string -> string -> string;   (* password, salt *)
  bcrypt_compare : string -> string -> bool;  (* password, hash *)
  jwt_sign : Z -> string -> string -> string; (* userId, username, clock *)
  isEmail : string -> bool;
  normalizeEmail : string -> string;
  encodeURIComponent : string -> string;
  localeCompare : string -> string -> Z;
  startYear : Z
}.

Section Server.

Context {env : Env}.

(** *** Accounts *)

(** The failing fields of the registration validators. *)
Definition registerErrors (b : body) : list string :=
  match b with
  | RegisterBody username email password =>
      (if (String.length username <? 3)%nat then ["username"] else [])
      ++ (if isEmail email then [] else ["email"])
      ++ (if (String.length password <? 6)%nat then ["password"] else [])
  | _ => ["username"; "email"; "password"]
  end.

(** The part of registration that runs after [await bcrypt.hash]: build
    [newUser], push it, sign the token and answer. *)
Definition registerInsert (st : store) (username email hashedPassword now : string)
  : store * Response.t :=
  let newUser :=
    User.mk (len (users st) + 1) username email hashedPassword
      ("https://ui-avatars.com/api/?name=" ++ username ++ "&background=random")
      now in
  let st' := mkStore (movies st) (users st ++ [newUser]) (reviews st)
               (watchlists st) in
  let token := jwt_sign (User.id newUser) (User.username newUser) now in
  (st', respond 201 (AuthJson "User created successfully" token
                       (publicUser newUser))).

(** [POST /api/auth/register]. *)
Definition postRegister (st : store) (req : Request.t) : store * Response.t :=
  match registerErrors (Request.payload req) with
  | (_ :: _) as errors => (st, respond 400 (ErrorsJson errors))
  | [] =>
      match Request.payload req with
      | RegisterBody username0 email0 password =>
          let username := JS.trim username0 in
          let email := normalizeEmail email0 in
          match find (fun user => String.eqb (User.email user) email
                                  || String.eqb (User.username user) username)
                     (users st) with
          | Some _ => (st, respond 400 (ErrorJson "User already exists"))
          | None =>
              registerInsert st username email
                (bcrypt_hash password (Request.salt req)) (Request.now req)
          end
      | _ => (st, respond 500 (ErrorJson "Server error during registration"))
      end
  end.

Definition loginErrors (b : body) : list string :=
  match b with
  | LoginBody email _ => if isEmail email then [] else ["email"]
  | _ => ["email"; "password"]
  end.

(** [POST /api/auth/login]. *)
Definition postLogin (st : store) (req : Request.t) : store * Response.t :=
  match loginErrors (Request.payload req) with
  | (_ :: _) as errors => (st, respond 400 (ErrorsJson errors))
  | [] =>
      match Request.payload req with
      | LoginBody email0 password =>
          let email := normalizeEmail email0 in
          match find (fun u => String.eqb (User.email u) email) (users st) with
          | None => (st, respond 400 (ErrorJson "Invalid credentials"))
          | Some user =>
              if bcrypt_compare password (User.password user) then
                let token := jwt_sign (User.id user) (User.username user)
                               (Request.now req) in
                (st, respond 200 (AuthJson "Login successful" token
                                    (publicUser user)))
              else (st, respond 400 (ErrorJson "Invalid credentials"))
          end
      | _ => (st, respond 500 (ErrorJson "Server error during login"))
      end
  end.

(** *** Catalog listing *)

(** [movie.genre.some(g => g.toLowerCase().includes(genre.toLowerCase()))]. *)
Definition genreMatches (genre : string) (movie : Movie.t) : bool :=
  existsb (fun g => JS.includes (JS.toLowerCase g) (JS.toLowerCase genre))
    (Movie.genre movie).

(** [movie.releaseYear.toString() === year]. *)
Definition yearMatches (year : string) (movie : Movie.t) : bool :=
  String.eqb (JS.toString (Movie.releaseYear movie)) year.

(** The search predicate: title, director or any cast member. *)
Definition searchMatches (search : string) (movie : Movie.t) : bool :=
  let searchTerm := JS.toLowerCase search in
  JS.includes (JS.toLowerCase (Movie.title movie)) searchTerm
  || JS.includes (JS.toLowerCase (Movie.director movie)) searchTerm
  || existsb (fun actor => JS.includes (JS.toLowerCase actor) searchTerm)
       (Movie.cast movie).

(** The three [if (...) filteredMovies = filteredMovies.filter(...)] steps,
    in the order of the source. *)
Definition applyFilters (q : Query.t) (all : list Movie.t) : list Movie.t :=
  let filteredMovies := all in
  let filteredMovies :=
    match Query.genre q with
    | Some genre =>
        if JS.truthy (Query.genre q)
        then filter (genreMatches genre) filteredMovies else filteredMovies
    | None => filteredMovies
    end in
  let filteredMovies :=
    match Query.year q with
    | Some year =>
        if JS.truthy (Query.year q)
        then filter (yearMatches year) filteredMovies else filteredMovies
    | None => filteredMovies
    end in
  let filteredMovies :=
    match Query.search q with
    | Some search =>
        if JS.truthy (Query.search q)
        then filter (searchMatches search) filteredMovies else filteredMovies
    | None => filteredMovies
    end in
  filteredMovies.

(** The comparator handed to [filteredMovies.sort]. *)
Definition compareMovies (sortBy : string) (a b : Movie.t) : Q :=
  if String.eqb sortBy "year" then
    inject_Z (Movie.releaseYear b - Movie.releaseYear a)
  else if String.eqb sortBy "rating" then
    Movie.averageRating b - Movie.averageRating a
  else
    inject_Z (localeCompare (Movie.title a) (Movie.title b)).

Definition pageOf (q : Query.t) : Z :=
  match Query.page q with Some p => p | None => 1%Z end.

Definition limitOf (q : Query.t) : Z :=
  match Query.limit q with Some l => l | None => 10%Z end.

Definition sortByOf (q : Query.t) : string :=
  match Query.sortBy q with Some s => s | None => "title" end.

(** The filtered and sorted array, before pagination. *)
Definition sortedMovies (st : store) (q : Query.t) : list Movie.t :=
  JS.sort (compareMovies (sortByOf q)) (applyFilters q (movies st)).

(** [Math.ceil(filteredMovies.length / limit)]; a division by zero gives
    [Infinity] or [NaN], which JSON renders as [null]. *)
Definition totalPagesOf (count limit : Z) : option Z :=
  if (limit =? 0)%Z then None else Some (JS.Math_ceil_div count limit).

(** [GET /api/movies]. *)
Definition getMovies (st : store) (req : Request.t) : store * Response.t :=
  let q := Request.query req in
  let page := pageOf q in
  let limit := limitOf q in
  let filteredMovies := sortedMovies st q in
  let startIndex := ((page - 1) * limit)%Z in
  let endIndex := (startIndex + limit)%Z in
  let paginatedMovies := JS.slice filteredMovies startIndex endIndex in
  (st, respond 200 (ListingJson paginatedMovies (len filteredMovies)
                      (Some page) (totalPagesOf (len filteredMovies) limit))).

(** *** Movies *)

(** [GET /api/movies/:id]. *)
Definition getMovieById (id : string) (st : store) (req : Request.t)
  : store * Response.t :=
  let movieId := JS.parseInt id in
  match find (fun m => JS.eqNum (Movie.id m) movieId) (movies st) with
  | None => (st, respond 404 (ErrorJson "Movie not found"))
  | Some movie =>
      let movieReviews :=
        filter (fun review => JS.eqNum (Review.movieId review) movieId)
          (reviews st) in
      let reviewsWithUsers := map (withUser st) movieReviews in
      (st, respond 200 (MovieJson (Movie.set_reviews movie reviewsWithUsers)))
  end.

(** [authenticateToken] in front of a handler. *)
Definition authenticated (req : Request.t)
    (k : Z -> string -> store * Response.t) (st : store) : store * Response.t :=
  match Request.cred req with
  | NoToken => (st, respond 401 (ErrorJson "Access token required"))
  | InvalidToken => (st, respond 403 (ErrorJson "Invalid token"))
  | ValidToken userId username => k userId username
  end.

Definition movieErrors (b : body) : list string :=
  match b with
  | MovieBody title _ releaseYear director _ _ _ =>
      (if String.eqb title "" then ["title"] else [])
      ++ (if (1900 <=? releaseYear)%Z && (releaseYear <=? startYear + 5)%Z
          then [] else ["releaseYear"])
      ++ (if String.eqb director "" then ["director"] else [])
  | _ => ["title"; "genre"; "releaseYear"; "director"]
  end.

(** [x || d] on a possibly absent string. *)
Definition orElse (o : option string) (d : string) : string :=
  match o with
  | Some s => if String.eqb s "" then d else s
  | None => d
  end.

(** [POST /api/movies]. *)
Definition postMovie (st : store) (req : Request.t) : store * Response.t :=
  authenticated req (fun _ _ =>
    match movieErrors (Request.payload req) with
    | (_ :: _) as errors => (st, respond 400 (ErrorsJson errors))
    | [] =>
        match Request.payload req with
        | MovieBody title0 genre releaseYear director0 cast synopsis posterUrl =>
            let title := JS.trim title0 in
            let director := JS.trim director0 in
            let newMovie :=
              Movie.mk (len (movies st) + 1) title genre releaseYear director
                (match cast with Some c => c | None => [] end)
                (orElse synopsis "")
                (orElse posterUrl
                   ("https://via.placeholder.com/300x450?text="
                    ++ encodeURIComponent title))
                0 [] in
            (mkStore (movies st ++ [newMovie]) (users st) (reviews st)
               (watchlists st),
             respond 201 (MovieJson newMovie))
        | _ => (st, respond 500 (ErrorJson "Error creating movie"))
        end
    end) st.

(** *** Reviews *)

(** [GET /api/movies/:id/reviews]. *)
Definition getMovieReviews (id : string) (st : store) (req : Request.t)
  : store * Response.t :=
  let movieId := JS.parseInt id in
  let movieReviews :=
    filter (fun review => JS.eqNum (Review.movieId review) movieId)
      (reviews st) in
  let reviewsWithUsers := map (withUser st) movieReviews in
  (st, respond 200 (ReviewsJson reviewsWithUsers)).

(** The validators of a review body, for a [rating] that is a JSON
    number; [Rating.isInt] is the validator on strings as well. *)
Definition reviewErrors (b : body) : list string :=
  match b with
  | ReviewBody rating reviewText =>
      (if (1 <=? rating)%Z && (rating <=? 5)%Z then [] else ["rating"])
      ++ (if String.eqb reviewText "" then ["reviewText"] else [])
  | _ => ["rating"; "reviewText"]
  end.

(** [movies[movieIndex].averageRating = calculateAverageRating(movieId)],
    the store already holding the new review. *)
Definition updateAverage (st : store) (movieId : Z) : store :=
  let movieIndex := JS.findIndex (fun m => (Movie.id m =? movieId)%Z) (movies st) in
  mkStore
    (updateAt (movies st) (Z.to_nat movieIndex)
       (fun m => Movie.set_averageRating m (calculateAverageRating st movieId)))
    (users st) (reviews st) (watchlists st).

(** [POST /api/movies/:id/reviews], for a [rating] that is a JSON number
    (a string rating would be stored as it came, see [Rating]).  When the
    token's account is not in
    [users], reading [user.username] throws after the review was pushed
    and the average updated; the [catch] answers 500. *)
Definition postMovieReview (id : string) (st : store) (req : Request.t)
  : store * Response.t :=
  authenticated req (fun userId _ =>
    match reviewErrors (Request.payload req) with
    | (_ :: _) as errors => (st, respond 400 (ErrorsJson errors))
    | [] =>
        match Request.payload req, JS.parseInt id with
        | ReviewBody rating reviewText0, parsed =>
            let reviewText := JS.trim reviewText0 in
            match find (fun m => JS.eqNum (Movie.id m) parsed) (movies st), parsed with
            | Some movie, Some movieId =>
                match find (fun review =>
                              (Review.movieId review =? movieId)%Z
                              && (Review.userId review =? userId)%Z)
                           (reviews st) with
                | Some _ =>
                    (st, respond 400
                           (ErrorJson "You have already reviewed this movie"))
                | None =>
                    let newReview :=
                      Review.mk (len (reviews st) + 1) movieId userId rating
                        reviewText (Request.now req) in
                    let st1 := mkStore (movies st) (users st)
                                 (reviews st ++ [newReview]) (watchlists st) in
                    let st2 := updateAverage st1 movieId in
                    match find (fun u => (User.id u =? userId)%Z) (users st2) with
                    | Some user =>
                        (st2, respond 201
                                (ReviewJson
                                   (ReviewWithUser.mk newReview
                                      (User.username user)
                                      (Some (User.profilePicture user)))))
                    | None =>
                        (st2, respond 500 (ErrorJson "Error creating review"))
                    end
                end
            | _, _ => (st, respond 404 (ErrorJson "Movie not found"))
            end
        | _, _ => (st, respond 500 (ErrorJson "Error creating review"))
        end
    end) st.

(** *** Profiles *)

(** [GET /api/users/:id]. *)
Definition getUser (id : string) (st : store) (req : Request.t)
  : store * Response.t :=
  authenticated req (fun _ _ =>
    let userId := JS.parseInt id in
    match find (fun u => JS.eqNum (User.id u) userId) (users st) with
    | None => (st, respond 404 (ErrorJson "User not found"))
    | Some user =>
        let userReviews :=
          filter (fun review => JS.eqNum (Review.userId review) userId)
            (reviews st) in
        (st, respond 200 (ProfileJson (publicUser user) (User.joinDate user)
                            (map (withMovie st) userReviews)))
    end) st.

Definition userErrors (b : body) : list string :=
  match b with
  | UserBody username email _ =>
      (match username with
       | Some u => if (String.length u <? 3)%nat then ["username"] else []
       | None => []
       end)
      ++ (match email with
          | Some e => if isEmail e then [] else ["email"]
          | None => []
          end)
  | _ => []
  end.

(** The three conditional assignments of the profile update. *)
Definition applyUserUpdate (username email profilePicture : option string)
    (u : User.t) : User.t :=
  let u1 := if JS.truthy username
            then User.mk (User.id u) (orElse username "") (User.email u)
                   (User.password u) (User.profilePicture u) (User.joinDate u)
            else u in
  let u2 := if JS.truthy email
            then User.mk (User.id u1) (User.username u1) (orElse email "")
                   (User.password u1) (User.profilePicture u1) (User.joinDate u1)
            else u1 in
  if JS.truthy profilePicture
  then User.mk (User.id u2) (User.username u2) (User.email u2)
         (User.password u2) (orElse profilePicture "") (User.joinDate u2)
  else u2.

(** [PUT /api/users/:id]. *)
Definition putUser (id : string) (st : store) (req : Request.t)
  : store * Response.t :=
  authenticated req (fun tokenUserId _ =>
    match userErrors (Request.payload req) with
    | (_ :: _) as errors => (st, respond 400 (ErrorsJson errors))
    | [] =>
        let userId := JS.parseInt id in
        if negb (JS.eqNum tokenUserId userId) then
          (st, respond 403 (ErrorJson "Not authorized to update this profile"))
        else
          let userIndex :=
            JS.findIndex (fun u => JS.eqNum (User.id u) userId) (users st) in
          if (userIndex =? -1)%Z then
            (st, respond 404 (ErrorJson "User not found"))
          else
            let '(username, email, profilePicture) :=
              match Request.payload req with
              | UserBody username email profilePicture =>
                  (option_map JS.trim username,
                   option_map normalizeEmail email, profilePicture)
              | _ => (None, None, None)
              end in
            if JS.truthy username
               && existsb (fun u => String.eqb (User.username u) (orElse username "")
                                    && negb (JS.eqNum (User.id u) userId))
                    (users st)
            then (st, respond 400 (ErrorJson "Username already taken"))
            else if JS.truthy email
                    && existsb (fun u => String.eqb (User.email u) (orElse email "")
                                         && negb (JS.eqNum (User.id u) userId))
                         (users st)
            then (st, respond 400 (ErrorJson "Email already in use"))
            else
              let users' :=
                updateAt (users st) (Z.to_nat userIndex)
                  (applyUserUpdate username email profilePicture) in
              match nth_error users' (Z.to_nat userIndex) with
              | Some u =>
                  (mkStore (movies st) users' (reviews st) (watchlists st),
                   respond 200 (PublicUserJson (publicUser u)))
              | None => (st, respond 500 (ErrorJson "Error updating user profile"))
              end
    end) st.

(** *** Watchlists *)

(** [GET /api/users/:id/watchlist]. *)
Definition getWatchlist (id : string) (st : store) (req : Request.t)
  : store * Response.t :=
  authenticated req (fun tokenUserId _ =>
    let userId := JS.parseInt id in
    if negb (JS.eqNum tokenUserId userId) then
      (st, respond 403 (ErrorJson "Not authorized to view this watchlist"))
    else
      let userWatchlist :=
        filter (fun item => JS.eqNum (WatchlistItem.userId item) userId)
          (watchlists st) in
      let watchlistWithMovies :=
        map (fun item =>
               (item,
                find (fun m => (Movie.id m =? WatchlistItem.movieId item)%Z)
                  (movies st)))
          userWatchlist in
      (st, respond 200 (WatchlistJson watchlistWithMovies))) st.

Definition watchlistErrors (b : body) : list string :=
  match b with
  | WatchlistBody movieId => if (1 <=? movieId)%Z then [] else ["movieId"]
  | _ => ["movieId"]
  end.

(** [POST /api/users/:id/watchlist]. *)
Definition postWatchlist (id : string) (st : store) (req : Request.t)
  : store * Response.t :=
  authenticated req (fun tokenUserId _ =>
    match watchlistErrors (Request.payload req) with
    | (_ :: _) as errors => (st, respond 400 (ErrorsJson errors))
    | [] =>
        match Request.payload req, JS.parseInt id with
        | WatchlistBody movieId, Some userId =>
            if negb (tokenUserId =? userId)%Z then
              (st, respond 403
                     (ErrorJson "Not authorized to modify this watchlist"))
            else
              match find (fun m => (Movie.id m =? movieId)%Z) (movies st) with
              | None => (st, respond 404 (ErrorJson "Movie not found"))
              | Some movie =>
                  match find (fun item =>
                                (WatchlistItem.userId item =? userId)%Z
                                && (WatchlistItem.movieId item =? movieId)%Z)
                             (watchlists st) with
                  | Some _ =>
                      (st, respond 400 (ErrorJson "Movie already in watchlist"))
                  | None =>
                      let newWatchlistItem :=
                        WatchlistItem.mk (len (watchlists st) + 1) userId
                          movieId (Request.now req) in
                      (mkStore (movies st) (users st) (reviews st)
                         (watchlists st ++ [newWatchlistItem]),
                       respond 201 (WatchlistItemJson newWatchlistItem movie))
                  end
              end
        | WatchlistBody _, None =>
            (st, respond 403
                   (ErrorJson "Not authorized to modify this watchlist"))
        | _, _ => (st, respond 500 (ErrorJson "Error adding to watchlist"))
        end
    end) st.

(** [DELETE /api/users/:id/watchlist/:movieId]. *)
Definition deleteWatchlist (id movieId0 : string) (st : store) (req : Request.t)
  : store * Response.t :=
  authenticated req (fun tokenUserId _ =>
    let userId := JS.parseInt id in
    let movieId := JS.parseInt movieId0 in
    if negb (JS.eqNum tokenUserId userId) then
      (st, respond 403 (ErrorJson "Not authorized to modify this watchlist"))
    else
      let itemIndex :=
        JS.findIndex (fun item =>
                        JS.eqNum (WatchlistItem.userId item) userId
                        && JS.eqNum (WatchlistItem.movieId item) movieId)
          (watchlists st) in
      if (itemIndex =? -1)%Z then
        (st, respond 404 (ErrorJson "Movie not in watchlist"))
      else
        (mkStore (movies st) (users st) (reviews st)
           (JS.splice1 (watchlists st) itemIndex),
         respond 200 (MessageJson "Movie removed from watchlist"))) st.

(** *** Featured movies *)

(** The handler registered for [GET /api/movies/featured]. *)
Definition getFeatured (st : store) (req : Request.t) : store * Response.t :=
  let featured :=
    JS.slice
      (JS.sort (fun a b => Movie.averageRating b - Movie.averageRating a)
         (movies st))
      0 6 in
  (st, respond 200 (MoviesJson featured)).

(** The final [app.use]: no route matched. *)
Definition routeNotFound (st : store) (req : Request.t) : store * Response.t :=
  (st, respond 404 (ErrorJson "Route not found")).

(** ** The route table *)

(** A segment of a route path: a literal or a [:name] parameter. *)
Inductive segment :=
| Lit (s : string)
| Param (name : string).

(** Matching of a request path against a route path; the values of the
    parameters come back in the order of the pattern. *)
Fixpoint matchPath (pat : list segment) (path : list string)
  : option (list string) :=
  match pat, path with
  | [], [] => Some []
  | Lit s :: pat', x :: path' =>
      if String.eqb s x then matchPath pat' path' else None
  | Param _ :: pat', x :: path' =>
      option_map (cons x) (matchPath pat' path')
  | _, _ => None
  end.

Definition handler := list string -> store -> Request.t -> store * Response.t.

Definition noParam (h : store -> Request.t -> store * Response.t) : handler :=
  fun _ => h.

Definition oneParam
    (h : string -> store -> Request.t -> store * Response.t) : handler :=
  fun ps => match ps with
            | [a] => h a
            | _ => routeNotFound
            end.

Definition twoParams
    (h : string -> string -> store -> Request.t -> store * Response.t)
  : handler :=
  fun ps => match ps with
            | [a; b] => h a b
            | _ => routeNotFound
            end.

(** The routes in the order in which [server.js] registers them; Express
    tries them in this order and the first match answers. *)
Definition routes : list (method * list segment * handler) :=
  [ (POST, [Lit "api"; Lit "auth"; Lit "register"], noParam postRegister);
    (POST, [Lit "api"; Lit "auth"; Lit "login"], noParam postLogin);
    (GET, [Lit "api"; Lit "movies"], noParam getMovies);
    (GET, [Lit "api"; Lit "movies"; Param "id"], oneParam getMovieById);
    (POST, [Lit "api"; Lit "movies"], noParam postMovie);
    (GET, [Lit "api"; Lit "movies"; Param "id"; Lit "reviews"],
      oneParam getMovieReviews);
    (POST, [Lit "api"; Lit "movies"; Param "id"; Lit "reviews"],
      oneParam postMovieReview);
    (GET, [Lit "api"; Lit "users"; Param "id"], oneParam getUser);
    (PUT, [Lit "api"; Lit "users"; Param "id"], oneParam putUser);
    (GET, [Lit "api"; Lit "users"; Param "id"; Lit "watchlist"],
      oneParam getWatchlist);
    (POST, [Lit "api"; Lit "users"; Param "id"; Lit "watchlist"],
      oneParam postWatchlist);
    (DELETE, [Lit "api"; Lit "users"; Param "id"; Lit "watchlist";
              Param "movieId"],
      twoParams deleteWatchlist);
    (GET, [Lit "api"; Lit "movies"; Lit "featured"], noParam getFeatured) ].

Definition method_eqb (a b : method) : bool :=
  match a, b with
  | GET, GET | POST, POST | PUT, PUT | DELETE, DELETE => true
  | _, _ => false
  end.

Fixpoint dispatchIn (rs : list (method * list segment * handler))
    (st : store) (req : Request.t) : store * Response.t :=
  match rs with
  | [] => routeNotFound st req
  | (m, pat, h) :: rs' =>
      if method_eqb m (Request.meth req) then
        match matchPath pat (Request.path req) with
        | Some ps => h ps st req
        | None => dispatchIn rs' st req
        end
      else dispatchIn rs' st req
  end.

(** The server's answer to a request, and the store it leaves. *)
Definition handle (st : store) (req : Request.t) : store * Response.t :=
  dispatchIn routes st req.

(** ** Reachable stores *)

(** The stores the process can be in: the seeded one, and whatever a
    request leaves.  [registerInsert] is a step of its own because other
    requests may run while registration awaits the hash, so that the
    insertion can follow a check made on an older store. *)
Inductive reachable : store -> Prop :=
| reach_init : reachable initialStore
| reach_handle st req : reachable st -> reachable (fst (handle st req))
| reach_insert st username email hashed now :
    reachable st ->
    reachable (fst (registerInsert st username email hashed now)).


(** Any number of steps of the process. *)
Inductive steps : store -> store -> Prop :=
| steps_refl st : steps st st
| steps_handle st st' req :
    steps st st' -> steps st (fst (handle st' req))
| steps_insert st st' username email hashed now :
    steps st st' ->
    steps st (fst (registerInsert st' username email hashed now)).

(** The stores left by a list of requests handled one after the other. *)
Definition run (st : store) (reqs : list Request.t) : store :=
  fold_left (fun s req => fst (handle s req)) reqs st.

(** *** The requests of the operations the specification names *)

(** [list(criteria)]: [GET /api/movies]. *)
Definition listRequest (q : Query.t) : Request.t :=
  Request.mk GET ["api"; "movies"] q NoToken NoBody "" "".

(** [featured()]: [GET /api/movies/featured]. *)
Definition featuredRequest : Request.t :=
  Request.mk GET ["api"; "movies"; "featured"] Query.empty NoToken NoBody "" "".

(** Listing a movie's reviews: [GET /api/movies/:id/reviews]. *)
Definition reviewsRequest (id : string) : Request.t :=
  Request.mk GET ["api"; "movies"; id; "reviews"] Query.empty NoToken NoBody
    "" "".

(** [addReview]: [POST /api/movies/:id/reviews] by the holder of a valid
    token. *)
Definition addReviewRequest (id : string) (userId : Z) (username : string)
    (rating : Z) (reviewText now : string) : Request.t :=
  Request.mk POST ["api"; "movies"; id; "reviews"] Query.empty
    (ValidToken userId username) (ReviewBody rating reviewText) now "".

(** [addToWatchlist]: [POST /api/users/:id/watchlist]. *)
Definition addToWatchlistRequest (id : string) (userId : Z) (username : string)
    (movieId : Z) (now : string) : Request.t :=
  Request.mk POST ["api"; "users"; id; "watchlist"] Query.empty
    (ValidToken userId username) (WatchlistBody movieId) now "".

(** [removeFromWatchlist]: [DELETE /api/users/:id/watchlist/:movieId]. *)
Definition removeFromWatchlistRequest (id : string) (userId : Z)
    (username movieId : string) : Request.t :=
  Request.mk DELETE ["api"; "users"; id; "watchlist"; movieId] Query.empty
    (ValidToken userId username) NoBody "" "".

(** ** Notions of the specification *)

(** [r] is [x] rounded to one decimal place, halves upwards: [r] is a
    whole number of tenths and [x] lies in [[r - 0.05, r + 0.05)]. *)
Definition roundedTo1 (x r : Q) : Prop :=
  (exists k : Z, r == inject_Z k / 10)
  /\ r - (1 # 20) <= x /\ x < r + (1 # 20).

(** Sum of the ratings of a set of reviews. *)
Definition sumRatings (R : list Review.t) : Z :=
  fold_right Z.add 0%Z (map Review.rating R).

(** Mean rating of a non-empty set of reviews. *)
Definition meanRating (R : list Review.t) : Q :=
  inject_Z (sumRatings R) / inject_Z (len R).

(** [avg] is what the specification's aggregator yields for the reviews
    [R] of an entry. *)
Definition isAggregate (R : list Review.t) (avg : Q) : Prop :=
  match R with
  | [] => avg == 0
  | _ :: _ => roundedTo1 (meanRating R) avg
  end.

(** The rating invariant of a catalog entry in a store. *)
Definition ratingInvariant (st : store) (m : Movie.t) : Prop :=
  isAggregate (movieReviews st (Movie.id m)) (Movie.averageRating m).

(** The page array, the total count and the page count of a listing
    response. *)
Definition pageOfResponse (r : Response.t) : list Movie.t :=
  match Response.json r with
  | ListingJson ms _ _ _ => ms
  | _ => []
  end.

Definition totalCountOf (r : Response.t) : option Z :=
  match Response.json r with
  | ListingJson _ n _ _ => Some n
  | _ => None
  end.

Definition totalPagesOfResponse (r : Response.t) : option Z :=
  match Response.json r with
  | ListingJson _ _ _ t => t
  | _ => None
  end.

(** A query with another page number. *)
Definition withPage (q : Query.t) (p : Z) : Query.t :=
  Query.mk (Some p) (Query.limit q) (Query.genre q) (Query.year q)
    (Query.search q) (Query.sortBy q).


(** The conjunction of the filters a query asks for. *)
Definition matchesAll (q : Query.t) (movie : Movie.t) : bool :=
  (match Query.genre q with
   | Some g => if JS.truthy (Some g) then genreMatches g movie else true
   | None => true
   end)
  && (match Query.year q with
      | Some y => if JS.truthy (Some y) then yearMatches y movie else true
      | None => true
      end)
  && (match Query.search q with
      | Some s => if JS.truthy (Some s) then searchMatches s movie else true
      | None => true
      end).





(** The ways in which a request changes the store. *)
Inductive mutation (st : store) : store -> Prop :=
| mut_none : mutation st st
| mut_users us :
    mutation st (mkStore (movies st) us (reviews st) (watchlists st))
| mut_movie m :
    Movie.id m = (len (movies st) + 1)%Z ->
    Movie.averageRating m = 0 ->
    mutation st (mkStore (movies st ++ [m]) (users st) (reviews st)
                   (watchlists st))
| mut_review r :
    (exists m, In m (movies st) /\ Movie.id m = Review.movieId r) ->
    find (fun x => (Review.movieId x =? Review.movieId r)%Z
                   && (Review.userId x =? Review.userId r)%Z)
         (reviews st) = None ->
    mutation st
      (updateAverage
         (mkStore (movies st) (users st) (reviews st ++ [r]) (watchlists st))
         (Review.movieId r))
| mut_watch_add w :
    find (fun x => (WatchlistItem.userId x =? WatchlistItem.userId w)%Z
                   && (WatchlistItem.movieId x =? WatchlistItem.movieId w)%Z)
         (watchlists st) = None ->
    mutation st (mkStore (movies st) (users st) (reviews st)
                   (watchlists st ++ [w]))
| mut_watch_del i :
    (0 <= i)%Z ->
    mutation st (mkStore (movies st) (users st) (reviews st)
                   (JS.splice1 (watchlists st) i)).

(** What every reachable store satisfies. *)
Record wellFormed (st : store) : Prop := {
  wf_movie_ids :
    map Movie.id (movies st) = map Z.of_nat (seq 1 (List.length (movies st)));
  wf_ratings :
    forall m, In m (movies st) ->
      Movie.averageRating m = calculateAverageRating st (Movie.id m)
      \/ (In m seedMovies /\ movieReviews st (Movie.id m) = []);
  wf_review_movies :
    forall r, In r (reviews st) ->
      exists m, In m (movies st) /\ Movie.id m = Review.movieId r;
  wf_watchlist_pairs :
    NoDup (map (fun w => (WatchlistItem.userId w, WatchlistItem.movieId w))
             (watchlists st))
}.

End Server.

(** ** A concrete environment

    Stand-ins for the library functions, to run the server on examples:
    [localeCompare] compares code units. *)
Definition sampleCompare (a b : string) : Z :=
  match String.compare a b with
  | Lt => (-1)%Z
  | Eq => 0%Z
  | Gt => 1%Z
  end.

Definition sampleEnv : Env :=
  {| bcrypt_hash := fun password salt => salt ++ "$" ++ password;
     bcrypt_compare := fun password hash => JS.includes hash password;
     jwt_sign := fun _ username now => username ++ "@" ++ now;
     isEmail := fun s => JS.includes s "@";
     normalizeEmail := JS.toLowerCase;
     encodeURIComponent := fun s => s;
     localeCompare := sampleCompare;
     startYear := 2025 |}.

(** A session: Ann registers, reviews movie 1 with five stars, and puts
    movies 1 and 2 on her watchlist. *)
Definition annRegisters : Request.t :=
  Request.mk POST ["api"; "auth"; "register"] Query.empty NoToken
    (RegisterBody "ann" "ann@example.org" "secret1") "2024-01-01T00:00:00.000Z"
    "salt".

Definition sampleStore : store :=
  run (env := sampleEnv) initialStore
    [ annRegisters;
      addReviewRequest "1" 1 "ann" 5 "great" "2024-01-02T00:00:00.000Z";
      addToWatchlistRequest "1" 1 "ann" 1 "2024-01-03T00:00:00.000Z";
      addToWatchlistRequest "1" 1 "ann" 2 "2024-01-04T00:00:00.000Z" ].

(** The session that continues with the removal of movie 1 from the
    watchlist and the addition of movie 3. *)
Definition reuseSession : list Request.t :=
  [ annRegisters;
    addToWatchlistRequest "1" 1 "ann" 1 "2024-01-03T00:00:00.000Z";
    addToWatchlistRequest "1" 1 "ann" 2 "2024-01-04T00:00:00.000Z";
    removeFromWatchlistRequest "1" 1 "ann" "1";
    addToWatchlistRequest "1" 1 "ann" 3 "2024-01-05T00:00:00.000Z" ].

(** The store after Ann has registered. *)
Definition annStore : store := run (env := sampleEnv) initialStore [annRegisters].

(** Page 2 of the catalog by rating, two entries a page. *)
Definition secondPageByRating : Query.t :=
  Query.mk (Some 2%Z) (Some 2%Z) None None None (Some "rating").

(** Page 5 of the same listing, which has two pages. *)
Definition fifthPageByRating : Query.t := withPage secondPageByRating 5.


(** The first catalog entry of the sample store, reviewed once. *)
Definition reviewedMovie : Movie.t :=
  Movie.set_averageRating (hd (Movie.mk 0 "" [] 0 "" [] "" "" 0 []) seedMovies)
    5.0.

(** ** Further requests *)

(** [POST /api/auth/register]. *)
Definition registerRequest (username email password now salt : string)
  : Request.t :=
  Request.mk POST ["api"; "auth"; "register"] Query.empty NoToken
    (RegisterBody username email password) now salt.

(** [POST /api/auth/login]. *)
Definition loginRequest (email password now : string) : Request.t :=
  Request.mk POST ["api"; "auth"; "login"] Query.empty NoToken
    (LoginBody email password) now "".

(** [GET /api/movies/:id]. *)
Definition movieRequest (id : string) : Request.t :=
  Request.mk GET ["api"; "movies"; id] Query.empty NoToken NoBody "" "".

(** [POST /api/movies] by the holder of a valid token. *)
Definition addMovieRequest (userId : Z) (username : string) (b : body)
  : Request.t :=
  Request.mk POST ["api"; "movies"] Query.empty (ValidToken userId username)
    b "" "".

(** [GET /api/users/:id] by the holder of a valid token. *)
Definition profileRequest (id : string) (userId : Z) (username : string)
  : Request.t :=
  Request.mk GET ["api"; "users"; id] Query.empty (ValidToken userId username)
    NoBody "" "".

(** [PUT /api/users/:id] by the holder of a valid token. *)
Definition updateUserRequest (id : string) (userId : Z) (username : string)
    (b : body) : Request.t :=
  Request.mk PUT ["api"; "users"; id] Query.empty (ValidToken userId username)
    b "" "".

(** [GET /api/users/:id/watchlist] by the holder of a valid token. *)
Definition watchlistRequest (id : string) (userId : Z) (username : string)
  : Request.t :=
  Request.mk GET ["api"; "users"; id; "watchlist"] Query.empty
    (ValidToken userId username) NoBody "" "".

(** ** Further notions *)

(** A string made of white space only. *)
Fixpoint onlySpaces (s : string) : bool :=
  match s with
  | EmptyString => true
  | String c s' => JS.isSpace c && onlySpaces s'
  end.

(** The fields of an account that no route assigns after registration. *)
Definition fixedFields (u : User.t) : Z * string * string :=
  (User.id u, User.password u, User.joinDate u).

(** A catalog entry without its derived rating. *)
Definition unrated (m : Movie.t) : Movie.t := Movie.set_averageRating m 0.

(** The account and the movie a review pairs. *)
Definition reviewPair (r : Review.t) : Z * Z :=
  (Review.userId r, Review.movieId r).


(** What one request does to the store, with what the handler checked
    before it wrote.  [serial] tells whether the registration's check was
    made on the store the insertion changes. *)
Inductive effect (serial : bool) (st : store) : store -> Prop :=
| eff_none : effect serial st st
| eff_user_add u :
    User.id u = (len (users st) + 1)%Z ->
    (serial = true ->
     forall x, In x (users st) ->
       User.email x <> User.email u /\ User.username x <> User.username u) ->
    effect serial st
      (mkStore (movies st) (users st ++ [u]) (reviews st) (watchlists st))
| eff_user_update i x username email profilePicture :
    nth_error (users st) i = Some x ->
    (JS.truthy username = true ->
     forall y, In y (users st) ->
       User.username y = orElse username "" -> User.id y = User.id x) ->
    (JS.truthy email = true ->
     forall y, In y (users st) ->
       User.email y = orElse email "" -> User.id y = User.id x) ->
    effect serial st
      (mkStore (movies st)
         (updateAt (users st) i (applyUserUpdate username email profilePicture))
         (reviews st) (watchlists st))
| eff_movie m :
    Movie.id m = (len (movies st) + 1)%Z ->
    Movie.averageRating m = 0 ->
    effect serial st
      (mkStore (movies st ++ [m]) (users st) (reviews st) (watchlists st))
| eff_review r :
    Review.id r = (len (reviews st) + 1)%Z ->
    (1 <= Review.rating r <= 5)%Z ->
    (exists m, In m (movies st) /\ Movie.id m = Review.movieId r) ->
    find (fun x => (Review.movieId x =? Review.movieId r)%Z
                   && (Review.userId x =? Review.userId r)%Z)
         (reviews st) = None ->
    effect serial st
      (updateAverage
         (mkStore (movies st) (users st) (reviews st ++ [r]) (watchlists st))
         (Review.movieId r))
| eff_watch_add w :
    WatchlistItem.id w = (len (watchlists st) + 1)%Z ->
    (exists m, In m (movies st) /\ Movie.id m = WatchlistItem.movieId w) ->
    find (fun x => (WatchlistItem.userId x =? WatchlistItem.userId w)%Z
                   && (WatchlistItem.movieId x =? WatchlistItem.movieId w)%Z)
         (watchlists st) = None ->
    effect serial st
      (mkStore (movies st) (users st) (reviews st) (watchlists st ++ [w]))
| eff_watch_del i :
    (0 <= i)%Z ->
    effect serial st
      (mkStore (movies st) (users st) (reviews st)
         (JS.splice1 (watchlists st) i)).

(** Further facts of every reachable store. *)
Record detailed (st : store) : Prop := {
  dt_user_ids :
    map User.id (users st) = map Z.of_nat (seq 1 (List.length (users st)));
  dt_review_ids :
    map Review.id (reviews st)
    = map Z.of_nat (seq 1 (List.length (reviews st)));
  dt_review_ratings :
    forall r, In r (reviews st) -> (1 <= Review.rating r <= 5)%Z;
  dt_review_pairs : NoDup (map reviewPair (reviews st));
  dt_watch_movies :
    forall w, In w (watchlists st) ->
      In (WatchlistItem.movieId w) (map Movie.id (movies st))
}.

(** No two accounts share a username or an email. *)
Record accountsUnique (st : store) : Prop := {
  au_usernames : NoDup (map User.username (users st));
  au_emails : NoDup (map User.email (users st))
}.

(** Bob's token: Bob never registered with this process. *)
Definition bobReviews : Request.t :=
  addReviewRequest "2" 7 "bob" 4 "fine" "2024-02-01T00:00:00.000Z".

(** A new catalog entry. *)
Definition alienBody : body :=
  MovieBody "Alien" ["Horror"] 1979 "Ridley Scott" None None None.

(** The same creation without a token. *)
Definition anonymousAddMovie : Request.t :=
  Request.mk POST ["api"; "movies"] Query.empty NoToken alienBody "" "".


(** A listing with [limit=0]. *)
Definition zeroLimit : Query.t :=
  Query.mk None (Some 0%Z) None None None None.

(** The last seeded entry. *)
Definition lastSeed : Movie.t := last seedMovies reviewedMovie.

(** ** Ratings as the client sends them

    The handlers take the [rating] of a review body as a JSON number.
    [body('rating').isInt({ min: 1, max: 5 })] also accepts a JSON string
    such as ["5"], the handler stores [req.body.rating] unconverted, and
    [acc + review.rating] concatenates once a string is among the
    ratings.  This module renders the validator and the arithmetic of
    [calculateAverageRating] over numbers and strings. *)

Module Rating.

(** The [rating] of a JSON body: an integral number or a string. *)
Inductive value :=
| Num (z : Z)
| Str (s : string).

Definition isDigit (c : ascii) : bool :=
  let n := nat_of_ascii c in (48 <=? n)%nat && (n <=? 57)%nat.

Fixpoint allDigits (s : string) : bool :=
  match s with
  | EmptyString => true
  | String c s' => isDigit c && allDigits s'
  end.

(** The sign a text starts with, and the text after it. *)
Definition unsign (s : string) : Z * string :=
  match s with
  | String "-"%char r => ((-1)%Z, r)
  | String "+"%char r => (1%Z, r)
  | _ => (1%Z, s)
  end.

(** The validator's pattern [/^[-+]?[0-9]+$/]. *)
Definition isIntText (s : string) : bool :=
  negb (String.eqb (snd (unsign s)) "") && allDigits (snd (unsign s)).

(** [ToNumber] of a text made of digits and signs, the only texts that
    arise below: an optional sign and digits give their integer, anything
    else gives [NaN] ([None]). *)
Definition textToNumber (s : string) : option Z :=
  if isIntText s
  then option_map (Z.mul (fst (unsign s)))
         (JS.digits 10 (snd (unsign s)) None)
  else None.

(** [ToNumber] and [ToString]. *)
Definition toNumber (v : value) : option Z :=
  match v with
  | Num z => Some z
  | Str s => textToNumber s
  end.

Definition toText (v : value) : string :=
  match v with
  | Num z => JS.toString z
  | Str s => s
  end.

(** [a + b]: addition of two numbers, concatenation otherwise. *)
Definition plus (a b : value) : value :=
  match a, b with
  | Num x, Num y => Num (x + y)
  | _, _ => Str (toText a ++ toText b)
  end.

(** [isInt({ min, max })] as express-validator applies it: to the text of
    the value, the bounds compared after [ToNumber]. *)
Definition isInt (lo hi : Z) (v : value) : bool :=
  match v with
  | Num z => (lo <=? z)%Z && (z <=? hi)%Z
  | Str s =>
      isIntText s
      && match textToNumber s with
         | Some z => (lo <=? z)%Z && (z <=? hi)%Z
         | None => false
         end
  end.

(** Lines 80 to 83 of [calculateAverageRating] on the ratings of
    [movieReviews] as they are stored; [None] is [NaN]. *)
Definition average (ratings : list value) : option Q :=
  if (List.length ratings =? 0)%nat then Some 0%Q
  else
    match toNumber (fold_left plus ratings (Num 0)) with
    | Some sum =>
        Some (inject_Z
                (JS.Math_round
                   ((inject_Z sum / inject_Z (Z.of_nat (List.length ratings)))
                    * 10))
              / 10)%Q
    | None => None
    end.

(** The number a rating stands for. *)
Definition numeric (v : value) : Z :=
  match toNumber v with
  | Some z => z
  | None => 0%Z
  end.

End Rating.

(** What the specification says the aggregator yields as average for the
    ratings of an entry's reviews: 0 for none, otherwise the mean of the
    ratings rounded to one decimal, halves up. *)
Definition claimedAverage (ratings : list Rating.value) (result : option Q)
  : Prop :=
  exists avg,
    result = Some avg
    /\ match ratings with
       | [] => avg == 0
       | _ :: _ =>
           roundedTo1
             (inject_Z (fold_right Z.add 0%Z (map Rating.numeric ratings))
              / inject_Z (len ratings))
             avg
       end.

(** The ratings of an entry's reviews as the store of the handlers holds
    them: JSON numbers. *)
Definition storedRatings (st : store) (movieId : Z) : list Rating.value :=
  map (fun review => Rating.Num (Review.rating review))
    (movieReviews st movieId).

(** ** Proof steps shared by the handlers *)

Ltac break_match :=
  match goal with
  | |- context [match ?x with _ => _ end] => destruct x eqn:?
  end.

Ltac handler_cases :=
  unfold authenticated; repeat (break_match; cbn [fst snd]).

(** * Properties *)

(** ** Arrays *)

Lemma findIndex_lower {A} (p : A -> bool) (l : list A) :
  (-1 <= JS.findIndex p l)%Z.
Proof.
  induction l as [|x l IH]; simpl; [lia|].
  destruct (p x); [lia|].
  destruct (JS.findIndex p l <? 0)%Z eqn:E; lia.
Qed.

Lemma findIndex_none {A} (p : A -> bool) (l : list A) :
  JS.findIndex p l = (-1)%Z <-> forall x, In x l -> p x = false.
Proof.
  induction l as [|x l IH]; simpl.
  - split; [intros _ y []|reflexivity].
  - pose proof (findIndex_lower p l) as Hl.
    destruct (p x) eqn:Hx.
    + split; [lia|]. intros H. specialize (H x (or_introl eq_refl)). congruence.
    + destruct (JS.findIndex p l <? 0)%Z eqn:E.
      * apply Z.ltb_lt in E. split; [|reflexivity].
        intros _ y [<-|Hy]; [assumption|]. apply IH; [lia|assumption].
      * apply Z.ltb_ge in E. split; [lia|].
        intros H. assert (JS.findIndex p l = (-1)%Z); [|lia].
        apply IH. intros y Hy. apply H. now right.
Qed.

Lemma findIndex_found {A} (p : A -> bool) (l : list A) :
  JS.findIndex p l <> (-1)%Z ->
  exists x, nth_error l (Z.to_nat (JS.findIndex p l)) = Some x /\ p x = true
            /\ find p l = Some x
            /\ forall y, In y (firstn (Z.to_nat (JS.findIndex p l)) l) ->
                         p y = false.
Proof.
  induction l as [|x l IH]; simpl; [congruence|].
  pose proof (findIndex_lower p l) as Hl.
  destruct (p x) eqn:Hx.
  - intros _. exists x. simpl. repeat split; auto. intros y [].
  - destruct (JS.findIndex p l <? 0)%Z eqn:E; [congruence|].
    apply Z.ltb_ge in E. intros _.
    destruct IH as (y & Hn & Hp & Hf & Hb); [lia|].
    exists y. replace (Z.to_nat (JS.findIndex p l + 1)) with
      (S (Z.to_nat (JS.findIndex p l))) by lia.
    simpl. repeat split; auto.
    intros z [<-|Hz]; auto.
Qed.

Lemma filter_nil_iff {A} (p : A -> bool) (l : list A) :
  filter p l = [] <-> forall x, In x l -> p x = false.
Proof.
  induction l as [|x l IH]; simpl.
  - split; [intros _ y []|reflexivity].
  - destruct (p x) eqn:Hx.
    + split; [discriminate|]. intros H.
      specialize (H x (or_introl eq_refl)). congruence.
    + rewrite IH. split.
      * intros H y [<-|Hy]; auto.
      * intros H y Hy. apply H. now right.
Qed.

Lemma find_app_none {A} (p : A -> bool) (l1 l2 : list A) :
  find p l1 = None -> find p (l1 ++ l2) = find p l2.
Proof.
  induction l1 as [|x l1 IH]; simpl; [reflexivity|].
  destruct (p x); [discriminate|exact IH].
Qed.

Lemma find_app_some {A} (p : A -> bool) (l1 l2 : list A) x :
  find p l1 = Some x -> find p (l1 ++ l2) = Some x.
Proof.
  induction l1 as [|y l1 IH]; simpl; [discriminate|].
  destruct (p y); [trivial|exact IH].
Qed.

Lemma find_exists {A} (p : A -> bool) (l : list A) x :
  In x l -> p x = true -> exists y, find p l = Some y.
Proof.
  intros Hin Hp. destruct (find p l) eqn:E; [eauto|].
  rewrite (find_none _ _ E _ Hin) in Hp. discriminate.
Qed.

Lemma len_app {A} (l1 l2 : list A) : len (l1 ++ l2) = (len l1 + len l2)%Z.
Proof. unfold len. rewrite length_app. lia. Qed.

(** ** Rating aggregator *)

Lemma fold_left_sumRatings (R : list Review.t) (acc : Z) :
  fold_left (fun a review => (a + Review.rating review)%Z) R acc
  = (acc + sumRatings R)%Z.
Proof.
  revert acc. induction R as [|r R IH]; intros acc; simpl.
  - unfold sumRatings. simpl. lia.
  - rewrite IH. unfold sumRatings. simpl. lia.
Qed.

Lemma Math_round_tenth (x : Q) :
  roundedTo1 x (inject_Z (JS.Math_round (x * 10)) / 10).
Proof.
  unfold roundedTo1, JS.Math_round.
  pose proof (Qfloor_le (x * 10 + (1 # 2))) as Hlo.
  pose proof (Qlt_floor (x * 10 + (1 # 2))) as Hhi.
  rewrite inject_Z_plus in Hhi.
  set (f := inject_Z (Qfloor (x * 10 + (1 # 2)))) in *.
  split; [exists (Qfloor (x * 10 + (1 # 2))); reflexivity|].
  assert (E : f / 10 == f * (1 # 10)) by (unfold Qdiv; reflexivity).
  rewrite E. change (inject_Z 1) with 1 in Hhi.
  split.
  - apply Qle_minus_iff. apply Qle_minus_iff in Hlo.
    setoid_replace (x + - (f * (1 # 10) - (1 # 20)))
      with ((x * 10 + (1 # 2) + - f) * (1 # 10)) by ring.
    apply Qmult_le_0_compat; [assumption|discriminate].
  - apply Qlt_minus_iff. apply Qlt_minus_iff in Hhi.
    setoid_replace (f * (1 # 10) + (1 # 20) + - x)
      with ((f + 1 + - (x * 10 + (1 # 2))) * (1 # 10)) by ring.
    apply Qmult_lt_0_compat; [assumption|reflexivity].
Qed.

Lemma calculateAverageRating_aggregate (st : store) (movieId : Z) :
  isAggregate (movieReviews st movieId) (calculateAverageRating st movieId).
Proof.
  unfold calculateAverageRating, isAggregate.
  destruct (movieReviews st movieId) as [|r R] eqn:E.
  - simpl. reflexivity.
  - cbv zeta. replace (List.length (r :: R) =? 0)%nat with false by reflexivity.
    rewrite fold_left_sumRatings, Z.add_0_l.
    apply Math_round_tenth.
Qed.

(** X27.  The binary64 computation of [Math.round((sum / n) * 10)] gives
    the tenth of the exact computation, for up to 50 reviews with ratings
    in 1..5. *)
Lemma Double_rounding_agrees (sum n : Z) :
  (1 <= n <= 50)%Z -> (n <= sum <= 5 * n)%Z ->
  Double.tenths sum n
  = Some (JS.Math_round ((inject_Z sum / inject_Z n) * 10)).
Proof.
  intros Hn Hs.
  assert (H : Double.agreesUpTo 50 = true) by (vm_compute; reflexivity).
  unfold Double.agreesUpTo in H. rewrite forallb_forall in H.
  specialize (H (Z.to_nat n)). rewrite forallb_forall in H.
  assert (Hin : In (Z.to_nat n) (seq 1 50)) by (apply in_seq; lia).
  specialize (H Hin (Z.to_nat sum)).
  assert (Hin2 : In (Z.to_nat sum) (seq (Z.to_nat n) (4 * Z.to_nat n + 1)))
    by (apply in_seq; lia).
  specialize (H Hin2). rewrite !Z2Nat.id in H by lia.
  unfold Double.agrees in H.
  destruct (Double.tenths sum n) as [k|]; [|discriminate].
  apply Z.eqb_eq in H. now rewrite H.
Qed.

(** C1 (amended).  For every store and entry id [E], with [R] the
    reviews that reference [E] (exactly the stored reviews whose [movieId]
    is [E]), their ratings being JSON numbers, [calculateAverageRating]
    yields one number and no count: 0 when [R] is empty and otherwise the
    sum of the ratings divided by the number [|R|] of reviews, rounded to
    one decimal place with halves rounded up. *)
Theorem C1_recompute_rounded_mean (st : store) (E : Z) :
  let R := movieReviews st E in
  (forall r, In r R <-> In r (reviews st) /\ Review.movieId r = E)
  /\ match R with
     | [] => calculateAverageRating st E = 0
     | _ :: _ =>
         roundedTo1 (inject_Z (sumRatings R) / inject_Z (Z.of_nat (List.length R)))
           (calculateAverageRating st E)
     end.
Proof.
  intros R. split.
  - intros r. unfold R, movieReviews. rewrite filter_In, Z.eqb_eq. tauto.
  - pose proof (calculateAverageRating_aggregate st E) as H.
    unfold isAggregate in H. fold R in H.
    destruct R as [|r R'] eqn:ER.
    + unfold calculateAverageRating. fold R. rewrite ER. reflexivity.
    + exact H.
Qed.

(** ** Sorting *)

Section Sorting.

Context {A : Type} (cmp : A -> A -> Q).

Lemma insert_perm (x : A) (l : list A) :
  Permutation (JS.insert cmp x l) (x :: l).
Proof.
  induction l as [|y l IH]; simpl; [reflexivity|].
  destruct (Qle_bool (cmp x y) 0); [reflexivity|].
  rewrite IH. apply perm_swap.
Qed.

Lemma sort_perm (l : list A) : Permutation (JS.sort cmp l) l.
Proof.
  induction l as [|x l IH]; simpl; [reflexivity|].
  rewrite insert_perm. now constructor.
Qed.

Lemma sort_length (l : list A) : List.length (JS.sort cmp l) = List.length l.
Proof. apply Permutation_length, sort_perm. Qed.



Hypothesis cmp_total : forall a b, ~ cmp a b <= 0 -> cmp b a <= 0.



End Sorting.






(** ** Page windows *)

Lemma slice_window {A} (l : list A) (start limit : Z) :
  (0 <= start)%Z -> (0 <= limit)%Z ->
  JS.slice l start (start + limit)
  = firstn (Z.to_nat limit) (skipn (Z.to_nat start) l).
Proof.
  intros Hs Hl. unfold JS.slice, JS.relIndex.
  destruct (start <? 0)%Z eqn:E1; [apply Z.ltb_lt in E1; lia|].
  destruct (start + limit <? 0)%Z eqn:E2; [apply Z.ltb_lt in E2; lia|].
  set (n := List.length l).
  destruct (Z_lt_le_dec start (Z.of_nat n)) as [Hlt|Hge].
  - rewrite (Z.min_l start) by lia.
    destruct (Z_lt_le_dec (start + limit) (Z.of_nat n)) as [Hlt2|Hge2].
    + rewrite (Z.min_l (start + limit)) by lia. f_equal. lia.
    + rewrite (Z.min_r (start + limit)) by lia.
      rewrite (firstn_all2 (n := Z.to_nat limit)).
      * apply firstn_all2. rewrite length_skipn. fold n. lia.
      * rewrite length_skipn. fold n. lia.
  - rewrite (Z.min_r start) by lia.
    rewrite !(skipn_all2 (n := Z.to_nat _)) by (fold n; lia).
    now rewrite !firstn_nil.
Qed.


Lemma filter_filter {A} (p q : A -> bool) (l : list A) :
  filter q (filter p l) = filter (fun x => p x && q x) l.
Proof.
  induction l as [|x l IH]; simpl; [reflexivity|].
  destruct (p x); simpl; [destruct (q x)|]; now rewrite IH.
Qed.

Lemma filter_true {A} (l : list A) : filter (fun _ => true) l = l.
Proof. induction l as [|x l IH]; simpl; congruence. Qed.

Lemma filter_ext_eq {A} (p q : A -> bool) (l : list A) :
  (forall x, p x = q x) -> filter p l = filter q l.
Proof.
  intros H. induction l as [|x l IH]; simpl; [reflexivity|].
  now rewrite H, IH.
Qed.

Lemma ceil_div_bounds (n limit : Z) :
  (0 < limit)%Z ->
  ((JS.Math_ceil_div n limit - 1) * limit < n <= JS.Math_ceil_div n limit * limit)%Z.
Proof.
  intros Hl. unfold JS.Math_ceil_div.
  pose proof (Z.div_mod (- n) limit ltac:(lia)) as Hd.
  pose proof (Z.mod_pos_bound (- n) limit Hl) as Hm.
  nia.
Qed.

(** ** Catalog listing *)

Section Listing.

Context {env : Env}.

Lemma handle_listRequest (st : store) (q : Query.t) :
  handle st (listRequest q) = getMovies st (listRequest q).
Proof. reflexivity. Qed.

Lemma applyFilters_matchesAll (q : Query.t) (l : list Movie.t) :
  applyFilters q l = filter (matchesAll q) l.
Proof.
  unfold applyFilters, matchesAll.
  destruct (Query.genre q) as [g|], (Query.year q) as [y|],
    (Query.search q) as [s|];
    repeat match goal with
      | |- context [JS.truthy ?o] => destruct (JS.truthy o)
      end;
    rewrite ?filter_filter;
    try (apply filter_ext_eq; intros x;
         now rewrite ?andb_assoc, ?andb_true_r, ?andb_true_l);
    try (rewrite <- (filter_true l) at 1; apply filter_ext_eq; intros x;
         reflexivity).
Qed.


Lemma len_sortedMovies (st : store) (q : Query.t) :
  len (sortedMovies st q) = len (filter (matchesAll q) (movies st)).
Proof.
  unfold sortedMovies, len. now rewrite sort_length, applyFilters_matchesAll.
Qed.

Lemma page_window (st : store) (q : Query.t) :
  (1 <= pageOf q)%Z -> (0 < limitOf q)%Z ->
  pageOfResponse (snd (handle st (listRequest q)))
  = firstn (Z.to_nat (limitOf q))
      (skipn (Z.to_nat ((pageOf q - 1) * limitOf q)) (sortedMovies st q)).
Proof.
  intros Hp Hl. rewrite handle_listRequest. unfold getMovies. cbn.
  apply slice_window; nia.
Qed.


End Listing.

Section ListingClaims.

Context {env : Env}.


(** C8.  For a listing request with [page >= 1] and [limit > 0] whose page
    number exceeds the reported [totalPages], the answer is 200 with an
    empty page, and [totalCount] and [totalPages] are those reported for
    any other page of the same filters and limit. *)
Theorem C8_page_beyond_last (st : store) (q : Query.t) (t p' : Z) :
  (1 <= pageOf q)%Z -> (0 < limitOf q)%Z ->
  totalPagesOfResponse (snd (handle st (listRequest q))) = Some t ->
  (t < pageOf q)%Z ->
  let r := snd (handle st (listRequest q)) in
  let r' := snd (handle st (listRequest (withPage q p'))) in
  Response.status r = 200%Z
  /\ pageOfResponse r = []
  /\ totalCountOf r = totalCountOf r'
  /\ totalPagesOfResponse r = totalPagesOfResponse r'.
Proof.
  intros Hp Hl Ht Hlt r r'.
  split; [reflexivity|]. split; [|split; reflexivity].
  unfold r. rewrite page_window by assumption.
  rewrite handle_listRequest in Ht. cbn in Ht. unfold totalPagesOf in Ht.
  destruct (limitOf q =? 0)%Z; [discriminate|]. injection Ht as Ht.
  pose proof (ceil_div_bounds (len (sortedMovies st q)) Hl) as Hb.
  rewrite Ht in Hb. unfold len in Hb.
  rewrite skipn_all2; [apply firstn_nil|]. nia.
Qed.


End ListingClaims.

(** ** What a request does to the store *)

Section Mutations.

Context {env : Env}.

Lemma dispatchIn_holds (P : store * Response.t -> Prop)
    (rs : list (method * list segment * handler)) (st : store)
    (req : Request.t) :
  (forall m pat h ps, In (m, pat, h) rs -> P (h ps st req)) ->
  P (routeNotFound st req) ->
  P (dispatchIn rs st req).
Proof.
  intros Hrs Hnf. induction rs as [|[[m pat] h] rs IH]; simpl; [exact Hnf|].
  assert (IH' : P (dispatchIn rs st req)).
  { apply IH. intros. eapply Hrs. right. eassumption. }
  destruct (method_eqb m (Request.meth req)); [|exact IH'].
  destruct (matchPath pat (Request.path req)) as [ps|]; [|exact IH'].
  eapply Hrs. left. reflexivity.
Qed.

Lemma registerInsert_mutation st username email hashed now :
  mutation st (fst (registerInsert st username email hashed now)).
Proof. unfold registerInsert. cbn. apply mut_users. Qed.

Lemma postRegister_mutation st req : mutation st (fst (postRegister st req)).
Proof.
  unfold postRegister. handler_cases; try apply mut_none.
  apply registerInsert_mutation.
Qed.

Lemma postLogin_mutation st req : mutation st (fst (postLogin st req)).
Proof. unfold postLogin. handler_cases; apply mut_none. Qed.

Lemma getMovies_mutation st req : mutation st (fst (getMovies st req)).
Proof. apply mut_none. Qed.

Lemma getMovieById_mutation id st req :
  mutation st (fst (getMovieById id st req)).
Proof. unfold getMovieById. handler_cases; apply mut_none. Qed.

Lemma postMovie_mutation st req : mutation st (fst (postMovie st req)).
Proof.
  unfold postMovie. handler_cases; try apply mut_none.
  all: now apply mut_movie.
Qed.

Lemma getMovieReviews_mutation id st req :
  mutation st (fst (getMovieReviews id st req)).
Proof. apply mut_none. Qed.

Lemma eqNum_Some (a b : Z) : JS.eqNum a (Some b) = true <-> a = b.
Proof. simpl. apply Z.eqb_eq. Qed.

Lemma postMovieReview_mutation id st req :
  mutation st (fst (postMovieReview id st req)).
Proof.
  unfold postMovieReview. handler_cases; try apply mut_none.
  all: match goal with
       | H : find _ (movies _) = Some ?m |- _ =>
           apply find_some in H; destruct H as [Hin Heq];
           apply eqNum_Some in Heq
       end.
  all: match goal with
       | |- mutation _ (updateAverage (mkStore _ _ (_ ++ [?r]) _) _) =>
           apply (mut_review _ r); [eexists; split; eassumption|assumption]
       end.
Qed.

Lemma getUser_mutation id st req : mutation st (fst (getUser id st req)).
Proof. unfold getUser. handler_cases; apply mut_none. Qed.

Lemma putUser_mutation id st req : mutation st (fst (putUser id st req)).
Proof.
  unfold putUser. handler_cases; try apply mut_none; apply mut_users.
Qed.

Lemma getWatchlist_mutation id st req :
  mutation st (fst (getWatchlist id st req)).
Proof. unfold getWatchlist. handler_cases; apply mut_none. Qed.

Lemma postWatchlist_mutation id st req :
  mutation st (fst (postWatchlist id st req)).
Proof.
  unfold postWatchlist. handler_cases; try apply mut_none.
  all: match goal with
       | |- mutation _ (mkStore _ _ _ (_ ++ [?w])) =>
           apply (mut_watch_add _ w)
       end.
  all: assumption.
Qed.

Lemma deleteWatchlist_mutation id movieId st req :
  mutation st (fst (deleteWatchlist id movieId st req)).
Proof.
  unfold deleteWatchlist. handler_cases; try apply mut_none.
  all: apply mut_watch_del.
  all: match goal with
       | H : (?i =? -1)%Z = false |- _ =>
           apply Z.eqb_neq in H;
           match i with
           | JS.findIndex ?p ?l => pose proof (findIndex_lower p l)
           end
       end.
  all: lia.
Qed.

Lemma handle_mutation st req : mutation st (fst (handle st req)).
Proof.
  unfold handle.
  apply (dispatchIn_holds (fun r => mutation st (fst r))); [|apply mut_none].
  intros m pat h ps Hin. unfold routes in Hin. simpl in Hin.
  repeat (destruct Hin as [Hin|Hin]; [injection Hin as <- <- <-|]);
    try contradiction;
    unfold noParam, oneParam, twoParams;
    repeat (break_match; try apply mut_none);
    auto using postRegister_mutation, postLogin_mutation, getMovies_mutation,
      getMovieById_mutation, postMovie_mutation, getMovieReviews_mutation,
      postMovieReview_mutation, getUser_mutation, putUser_mutation,
      getWatchlist_mutation, postWatchlist_mutation, deleteWatchlist_mutation,
      mut_none.
Qed.

End Mutations.

(** ** The invariants of the store *)

Lemma calculateAverageRating_congr (st st' : store) (id : Z) :
  movieReviews st id = movieReviews st' id ->
  calculateAverageRating st id = calculateAverageRating st' id.
Proof. intros H. unfold calculateAverageRating. now rewrite H. Qed.

Lemma movieReviews_push (st : store) (r : Review.t) (id : Z) us ms ws :
  Review.movieId r <> id ->
  movieReviews (mkStore ms us (reviews st ++ [r]) ws) id = movieReviews st id.
Proof.
  intros Hne. unfold movieReviews. cbn [reviews].
  rewrite filter_app. simpl.
  destruct (Z.eqb_spec (Review.movieId r) id); [contradiction|].
  apply app_nil_r.
Qed.

Lemma In_updateAt {A} (f : A -> A) (l : list A) (i : nat) (y : A) :
  In y (updateAt l i f) ->
  exists j x, nth_error l j = Some x
              /\ ((j = i /\ y = f x) \/ (j <> i /\ y = x)).
Proof.
  revert i. induction l as [|a l IH]; intros i; simpl; [intros []|].
  destruct i as [|i]; simpl.
  - intros [<-|Hin].
    + exists 0%nat, a. split; [reflexivity|]. left. now split.
    + apply In_nth_error in Hin. destruct Hin as [j Hj].
      exists (S j), y. split; [exact Hj|]. right. split; [lia|reflexivity].
  - intros [<-|Hin].
    + exists 0%nat, a. split; [reflexivity|]. right. split; [lia|reflexivity].
    + destruct (IH i Hin) as (j & x & Hj & Hc).
      exists (S j), x. split; [exact Hj|].
      destruct Hc as [[-> ->]|[Hne ->]]; [left|right]; split; auto.
Qed.

Lemma map_updateAt {A B} (g : A -> B) (f : A -> A) (l : list A) (i : nat) :
  (forall x, g (f x) = g x) -> map g (updateAt l i f) = map g l.
Proof.
  intros H. revert i. induction l as [|a l IH]; intros [|i]; simpl;
    try reflexivity.
  - now rewrite H.
  - now rewrite IH.
Qed.

Lemma length_updateAt {A} (f : A -> A) (l : list A) (i : nat) :
  List.length (updateAt l i f) = List.length l.
Proof.
  revert i. induction l as [|a l IH]; intros [|i]; simpl; auto.
Qed.

Lemma NoDup_ids (n : nat) : NoDup (map Z.of_nat (seq 1 n)).
Proof.
  generalize 1%nat as s. induction n as [|n IH]; intros s; simpl.
  - constructor.
  - constructor; [|apply IH].
    rewrite in_map_iff. intros (j & Hj & Hin). apply in_seq in Hin. lia.
Qed.

Lemma In_firstn {A} (n : nat) (l : list A) (x : A) :
  In x (firstn n l) -> In x l.
Proof.
  intros H. rewrite <- (firstn_skipn n l). apply in_or_app. now left.
Qed.

Lemma In_skipn {A} (n : nat) (l : list A) (x : A) :
  In x (skipn n l) -> In x l.
Proof.
  intros H. rewrite <- (firstn_skipn n l). apply in_or_app. now right.
Qed.

Lemma In_ids (n : nat) (k : Z) :
  In k (map Z.of_nat (seq 1 n)) <-> (1 <= k <= Z.of_nat n)%Z.
Proof.
  rewrite in_map_iff. split.
  - intros (j & <- & Hj). apply in_seq in Hj. lia.
  - intros H. exists (Z.to_nat k). split; [lia|]. apply in_seq. lia.
Qed.

Lemma NoDup_splice1 {A} (l : list A) (i : nat) :
  NoDup l -> NoDup (firstn i l ++ skipn (S i) l).
Proof.
  revert i. induction l as [|a l IH]; intros i Hnd.
  - now rewrite firstn_nil, skipn_nil.
  - inversion Hnd as [|? ? Hnot Hnd']; subst.
    destruct i as [|i]; [assumption|].
    change (NoDup (a :: (firstn i l ++ skipn (S i) l))).
    constructor; [|now apply IH].
    intros Hin. apply Hnot. apply in_app_or in Hin.
    destruct Hin as [Hin|Hin].
    + eapply In_firstn. eassumption.
    + eapply In_skipn. eassumption.
Qed.

Lemma id_in_movies (ms : list Movie.t) (k : Z) :
  (exists m, In m ms /\ Movie.id m = k) <-> In k (map Movie.id ms).
Proof.
  rewrite in_map_iff. split; intros (m & H1 & H2); exists m; tauto.
Qed.

Lemma initialStore_wellFormed : wellFormed initialStore.
Proof.
  constructor.
  - reflexivity.
  - intros m Hm. right. split; [exact Hm|reflexivity].
  - intros r [].
  - constructor.
Qed.

Lemma no_reviews_beyond (st : store) :
  wellFormed st -> movieReviews st (len (movies st) + 1) = [].
Proof.
  intros Hwf. unfold movieReviews. apply filter_nil_iff. intros r Hr.
  apply Z.eqb_neq. intros Heq.
  destruct (wf_review_movies Hwf r Hr) as (m & Hm & Hid).
  assert (Hin : In (Movie.id m) (map Movie.id (movies st)))
    by (apply in_map; assumption).
  rewrite (wf_movie_ids Hwf) in Hin. apply In_ids in Hin.
  unfold len in Heq. lia.
Qed.

Lemma push_movie_wellFormed (st : store) (m : Movie.t) :
  wellFormed st ->
  Movie.id m = (len (movies st) + 1)%Z ->
  Movie.averageRating m = 0 ->
  wellFormed (mkStore (movies st ++ [m]) (users st) (reviews st)
                (watchlists st)).
Proof.
  intros Hwf Hid Havg. constructor; cbn [movies reviews watchlists].
  - rewrite map_app, length_app, seq_app, map_app, (wf_movie_ids Hwf).
    simpl. rewrite Hid. unfold len. do 2 f_equal. lia.
  - intros x Hx. apply in_app_or in Hx. destruct Hx as [Hx|[<-|[]]].
    + destruct (wf_ratings Hwf x Hx) as [H|H]; [left|right]; exact H.
    + left. rewrite Havg, Hid.
      unfold calculateAverageRating.
      change (movieReviews _ (len (movies st) + 1))
        with (movieReviews st (len (movies st) + 1)).
      now rewrite (no_reviews_beyond Hwf).
  - intros r Hr. destruct (wf_review_movies Hwf r Hr) as (x & Hx & Hxid).
    exists x. split; [apply in_or_app; now left|exact Hxid].
  - apply (wf_watchlist_pairs Hwf).
Qed.

Lemma push_review_wellFormed (st : store) (r : Review.t) :
  wellFormed st ->
  (exists m, In m (movies st) /\ Movie.id m = Review.movieId r) ->
  wellFormed
    (updateAverage
       (mkStore (movies st) (users st) (reviews st ++ [r]) (watchlists st))
       (Review.movieId r)).
Proof.
  intros Hwf (m0 & Hm0 & Hid0).
  set (mid := Review.movieId r) in *.
  set (st1 := mkStore (movies st) (users st) (reviews st ++ [r])
                (watchlists st)).
  set (p := fun m => (Movie.id m =? mid)%Z).
  assert (Hidx : JS.findIndex p (movies st) <> (-1)%Z).
  { intros H. rewrite findIndex_none in H. specialize (H m0 Hm0).
    unfold p in H. apply Z.eqb_neq in H. contradiction. }
  destruct (findIndex_found p (movies st) Hidx) as (x & Hnth & Hpx & _ & _).
  unfold p in Hpx. apply Z.eqb_eq in Hpx.
  set (i := Z.to_nat (JS.findIndex p (movies st))) in *.
  set (f := fun m => Movie.set_averageRating m (calculateAverageRating st1 mid)).
  assert (Hids : map Movie.id (updateAt (movies st) i f) = map Movie.id (movies st))
    by (apply map_updateAt; reflexivity).
  unfold updateAverage. fold p. cbn [movies users reviews watchlists st1].
  fold st1 i f.
  constructor; cbn [movies reviews watchlists].
  - rewrite Hids, length_updateAt. apply (wf_movie_ids Hwf).
  - intros y Hy. apply In_updateAt in Hy.
    destruct Hy as (j & x' & Hj & [[-> ->]|[Hne ->]]).
    + left. rewrite Hnth in Hj. injection Hj as <-.
      unfold f. cbn [Movie.set_averageRating Movie.averageRating Movie.id].
      rewrite Hpx. apply calculateAverageRating_congr. reflexivity.
    + assert (Hx'id : Movie.id x' <> mid).
      { intros Heq.
        pose proof (NoDup_ids (List.length (movies st))) as Hnd.
        rewrite <- (wf_movie_ids Hwf) in Hnd.
        rewrite NoDup_nth_error in Hnd.
        apply Hne. apply Hnd.
        - rewrite length_map. apply nth_error_Some. congruence.
        - rewrite !nth_error_map, Hj, Hnth. simpl. congruence. }
      assert (Hmr : movieReviews
                      (mkStore (updateAt (movies st) i f) (users st)
                         (reviews st ++ [r]) (watchlists st)) (Movie.id x')
                    = movieReviews st (Movie.id x')).
      { apply movieReviews_push. fold mid. congruence. }
      apply nth_error_In in Hj.
      destruct (wf_ratings Hwf x' Hj) as [H|[H1 H2]].
      * left. rewrite H. symmetry.
        apply calculateAverageRating_congr. exact Hmr.
      * right. split; [exact H1|]. now rewrite Hmr.
  - intros r' Hr'. apply id_in_movies. rewrite Hids. apply id_in_movies.
    apply in_app_or in Hr'. destruct Hr' as [Hr'|[<-|[]]].
    + apply (wf_review_movies Hwf r' Hr').
    + exists m0. split; assumption.
  - apply (wf_watchlist_pairs Hwf).
Qed.

Lemma mutation_wellFormed (st st' : store) :
  wellFormed st -> mutation st st' -> wellFormed st'.
Proof.
  intros Hwf Hm. destruct Hm as [|us|m Hid Havg|r Hex Hnone|w Hnone|i Hi].
  - exact Hwf.
  - destruct Hwf as [H1 H2 H3 H4]. constructor; assumption.
  - now apply push_movie_wellFormed.
  - now apply push_review_wellFormed.
  - destruct Hwf as [H1 H2 H3 H4]. constructor; try assumption.
    cbn [watchlists]. rewrite map_app. simpl.
    apply NoDup_rev in H4. rewrite <- rev_involutive. apply NoDup_rev.
    rewrite rev_app_distr. simpl. constructor; [|exact H4].
    rewrite <- in_rev, in_map_iff. intros (x & Hx & Hin).
    pose proof (find_none _ _ Hnone x Hin) as Hf. simpl in Hf.
    injection Hx as Hu Hmv. rewrite Hu, Hmv, !Z.eqb_refl in Hf. discriminate.
  - destruct Hwf as [H1 H2 H3 H4]. constructor; try assumption.
    cbn [watchlists]. unfold JS.splice1.
    rewrite map_app, <- firstn_map, <- skipn_map. now apply NoDup_splice1.
Qed.

Section Reachability.

Context {env : Env}.

Lemma reachable_wellFormed (st : store) : reachable st -> wellFormed st.
Proof.
  induction 1 as [|st req _ IH|st username email hashed now _ IH].
  - apply initialStore_wellFormed.
  - eapply mutation_wellFormed; [exact IH|apply handle_mutation].
  - eapply mutation_wellFormed; [exact IH|apply registerInsert_mutation].
Qed.

End Reachability.

(** ** Reviews *)

Lemma find_updateAt {A} (p : A -> bool) (f : A -> A) (l : list A) (x : A) :
  (forall y, p (f y) = p y) ->
  find p l = Some x ->
  find p (updateAt l (Z.to_nat (JS.findIndex p l)) f) = Some (f x).
Proof.
  intros Hp. induction l as [|a l IH]; simpl; [discriminate|].
  destruct (p a) eqn:Ha.
  - intros [= ->]. simpl. now rewrite Hp, Ha.
  - intros Hf. pose proof (findIndex_lower p l) as Hl.
    destruct (JS.findIndex p l <? 0)%Z eqn:E.
    + apply Z.ltb_lt in E. assert (Hn : JS.findIndex p l = (-1)%Z) by lia.
      rewrite findIndex_none in Hn. apply find_some in Hf.
      destruct Hf as [Hin Hx]. rewrite (Hn x Hin) in Hx. discriminate.
    + apply Z.ltb_ge in E.
      replace (Z.to_nat (JS.findIndex p l + 1))
        with (S (Z.to_nat (JS.findIndex p l))) by lia.
      simpl. rewrite Ha. now apply IH.
Qed.

Lemma users_updateAverage (st : store) (movieId : Z) :
  users (updateAverage st movieId) = users st.
Proof. reflexivity. Qed.

Lemma mutation_keeps_movie_ids (st st' : store) (k : Z) :
  mutation st st' ->
  In k (map Movie.id (movies st)) -> In k (map Movie.id (movies st')).
Proof.
  intros Hm Hk. destruct Hm; cbn [movies updateAverage]; try assumption.
  - rewrite map_app. apply in_or_app. now left.
  - rewrite map_updateAt by reflexivity. assumption.
Qed.

Lemma mutation_keeps_reviews (st st' : store) (r : Review.t) :
  mutation st st' -> In r (reviews st) -> In r (reviews st').
Proof.
  intros Hm Hr. destruct Hm; cbn [reviews updateAverage]; try assumption.
  apply in_or_app. now left.
Qed.

Section ReviewClaims.

Context {env : Env}.

Lemma steps_keep (st st' : store) :
  steps st st' ->
  (forall k, In k (map Movie.id (movies st)) -> In k (map Movie.id (movies st')))
  /\ (forall r, In r (reviews st) -> In r (reviews st')).
Proof.
  induction 1 as [st|st st' req _ [IH1 IH2]
                 |st st' username email hashed now _ [IH1 IH2]].
  - split; auto.
  - pose proof (handle_mutation st' req) as Hm. split.
    + intros k Hk. eapply mutation_keeps_movie_ids; eauto.
    + intros r Hr. eapply mutation_keeps_reviews; eauto.
  - pose proof (registerInsert_mutation st' username email hashed now) as Hm.
    split.
    + intros k Hk. eapply mutation_keeps_movie_ids; eauto.
    + intros r Hr. eapply mutation_keeps_reviews; eauto.
Qed.

Lemma handle_addReviewRequest st id userId username rating reviewText now :
  handle st (addReviewRequest id userId username rating reviewText now)
  = postMovieReview id st
      (addReviewRequest id userId username rating reviewText now).
Proof. reflexivity. Qed.

Lemma reviewErrors_valid (rating : Z) (reviewText : string) :
  (1 <= rating <= 5)%Z -> reviewText <> "" ->
  reviewErrors (ReviewBody rating reviewText) = [].
Proof.
  intros Hr Ht. unfold reviewErrors.
  destruct (Z.leb_spec 1 rating); [|lia].
  destruct (Z.leb_spec rating 5); [|lia].
  destruct (String.eqb_spec reviewText ""); [contradiction|reflexivity].
Qed.

Lemma postMovieReview_conflict st id userId username rating reviewText now
    movieId (m : Movie.t) (r : Review.t) :
  (1 <= rating <= 5)%Z -> reviewText <> "" ->
  JS.parseInt id = Some movieId ->
  In movieId (map Movie.id (movies st)) ->
  In r (reviews st) -> Review.movieId r = movieId -> Review.userId r = userId ->
  postMovieReview id st
    (addReviewRequest id userId username rating reviewText now)
  = (st, respond 400 (ErrorJson "You have already reviewed this movie")).
Proof.
  intros Hr Ht Hp Hm Hin Hrm Hru.
  unfold postMovieReview, authenticated, addReviewRequest.
  cbn [Request.cred Request.payload Request.now].
  rewrite (reviewErrors_valid Hr Ht), Hp.
  apply id_in_movies in Hm. destruct Hm as (x & Hx & Hxid).
  destruct (find_exists (fun m => JS.eqNum (Movie.id m) (Some movieId))
              (movies st) x Hx) as [y ->].
  { simpl. now apply Z.eqb_eq. }
  destruct (find_exists
              (fun review => (Review.movieId review =? movieId)%Z
                             && (Review.userId review =? userId)%Z)
              (reviews st) r Hin) as [z ->].
  { rewrite Hrm, Hru, !Z.eqb_refl. reflexivity. }
  reflexivity.
Qed.

Lemma postMovieReview_created st id userId username rating reviewText now :
  (1 <= rating <= 5)%Z -> reviewText <> "" ->
  let req := addReviewRequest id userId username rating reviewText now in
  Response.status (snd (postMovieReview id st req)) = 201%Z ->
  exists movieId user m,
    JS.parseInt id = Some movieId
    /\ find (fun m => (Movie.id m =? movieId)%Z) (movies st) = Some m
    /\ find (fun u => (User.id u =? userId)%Z) (users st) = Some user
    /\ let newReview :=
         Review.mk (len (reviews st) + 1) movieId userId rating
           (JS.trim reviewText) now in
       postMovieReview id st req
       = (updateAverage
            (mkStore (movies st) (users st) (reviews st ++ [newReview])
               (watchlists st)) movieId,
          respond 201
            (ReviewJson (ReviewWithUser.mk newReview (User.username user)
                           (Some (User.profilePicture user))))).
Proof.
  intros Hr Ht req. unfold req, postMovieReview, authenticated, addReviewRequest.
  cbn [Request.cred Request.payload Request.now].
  rewrite (reviewErrors_valid Hr Ht).
  destruct (JS.parseInt id) as [movieId|] eqn:Hp.
  - change (fun m => JS.eqNum (Movie.id m) (Some movieId))
      with (fun m => (Movie.id m =? movieId)%Z).
    destruct (find _ (movies st)) as [m|] eqn:Hm; [|discriminate].
    destruct (find _ (reviews st)) as [x|] eqn:Hx; [discriminate|].
    rewrite users_updateAverage. cbn [users].
    destruct (find _ (users st)) as [user|] eqn:Hu; [|discriminate].
    intros _. exists movieId, user, m. repeat split; assumption.
  - destruct (find _ (movies st)); discriminate.
Qed.

End ReviewClaims.

Section StoreClaims.

Context {env : Env}.

(** C5.  For an [addReview] request that passes validation (rating in
    1..5, non-empty text) and carries a valid token: when the entry id
    resolves to no movie the answer is 404 and the store is unchanged;
    when the answer is 201, the new review was appended, the entry's
    [averageRating] was then recomputed over the reviews including it,
    and the body is the review joined with the author's [username] and
    [profilePicture]; and from then on, whatever requests come in
    between, another valid [addReview] for the same account and entry is
    answered 400 "You have already reviewed this movie" and leaves the
    store, hence the reviews and the average, unchanged. *)
Theorem C5_addReview_contract (st : store) (id : string) (userId : Z)
    (username : string) (rating : Z) (reviewText now : string) :
  (1 <= rating <= 5)%Z -> reviewText <> "" ->
  let req := addReviewRequest id userId username rating reviewText now in
  ((forall m, In m (movies st) ->
              JS.eqNum (Movie.id m) (JS.parseInt id) = false) ->
   handle st req = (st, respond 404 (ErrorJson "Movie not found")))
  /\ (Response.status (snd (handle st req)) = 201%Z ->
      (exists movieId user movie',
         JS.parseInt id = Some movieId
         /\ find (fun u => (User.id u =? userId)%Z) (users st) = Some user
         /\ let newReview :=
              Review.mk (len (reviews st) + 1) movieId userId rating
                (JS.trim reviewText) now in
            reviews (fst (handle st req)) = (reviews st ++ [newReview])%list
            /\ find (fun m => (Movie.id m =? movieId)%Z)
                 (movies (fst (handle st req))) = Some movie'
            /\ Movie.averageRating movie'
               = calculateAverageRating (fst (handle st req)) movieId
            /\ snd (handle st req)
               = respond 201
                   (ReviewJson
                      (ReviewWithUser.mk newReview (User.username user)
                         (Some (User.profilePicture user)))))
      /\ forall st2 username' rating' reviewText' now',
           steps (fst (handle st req)) st2 ->
           (1 <= rating' <= 5)%Z -> reviewText' <> "" ->
           handle st2
             (addReviewRequest id userId username' rating' reviewText' now')
           = (st2,
              respond 400 (ErrorJson "You have already reviewed this movie"))).
Proof.
  intros Hr Ht req. split.
  - intros Hnone. unfold req. rewrite handle_addReviewRequest.
    unfold postMovieReview, authenticated, addReviewRequest.
    cbn [Request.cred Request.payload Request.now].
    rewrite (reviewErrors_valid Hr Ht).
    destruct (find _ (movies st)) as [m|] eqn:Hm; [|reflexivity].
    apply find_some in Hm. destruct Hm as [Hin Heq].
    rewrite (Hnone m Hin) in Heq. discriminate.
  - unfold req. rewrite handle_addReviewRequest. intros Hst.
    destruct (postMovieReview_created st id userId username now Hr Ht Hst)
      as (movieId & user & m & Hp & Hm & Hu & Heq).
    cbv zeta in Heq. rewrite Heq. cbn [fst snd]. split.
    + exists movieId, user,
        (Movie.set_averageRating m
           (calculateAverageRating
              (mkStore (movies st) (users st)
                 (reviews st
                  ++ [Review.mk (len (reviews st) + 1) movieId userId rating
                        (JS.trim reviewText) now]) (watchlists st)) movieId)).
      split; [exact Hp|]. split; [exact Hu|]. cbv zeta.
      split; [reflexivity|]. split; [|split; [|reflexivity]].
      * unfold updateAverage. cbn [movies].
        refine (find_updateAt _ (fun y => Movie.set_averageRating y _) _ _ Hm).
        reflexivity.
      * cbn [Movie.set_averageRating Movie.averageRating].
        apply calculateAverageRating_congr. reflexivity.
    + intros st2 username' rating' reviewText' now' Hsteps Hr' Ht'.
      rewrite handle_addReviewRequest.
      destruct (steps_keep Hsteps) as [Hk1 Hk2].
      eapply postMovieReview_conflict with
        (r := Review.mk (len (reviews st) + 1) movieId userId rating
                (JS.trim reviewText) now);
        try eassumption; try reflexivity.
      * apply Hk1. unfold updateAverage. cbn [movies].
        rewrite map_updateAt by reflexivity.
        apply find_some in Hm. destruct Hm as [Hin Hid].
        apply Z.eqb_eq in Hid. rewrite <- Hid. now apply in_map.
      * apply Hk2. unfold updateAverage. cbn [reviews].
        apply in_or_app. right. now left.
Qed.

(** C2 (amended).  In every reachable store, the ratings of the reviews
    being JSON numbers, each catalog entry's [averageRating] is the mean
    of the ratings of the reviews referencing it rounded to one decimal,
    halves up, or 0 when there are none, unless the entry is a seeded one
    that has no review yet and still carries its seeded rating. *)
Theorem C2_rating_invariant_after_seed (st : store) (m : Movie.t) :
  reachable st -> In m (movies st) ->
  ratingInvariant st m
  \/ (In m seedMovies /\ movieReviews st (Movie.id m) = []).
Proof.
  intros Hreach Hin.
  destruct (wf_ratings (reachable_wellFormed Hreach) m Hin) as [H|H].
  - left. unfold ratingInvariant. rewrite H.
    apply calculateAverageRating_aggregate.
  - right. exact H.
Qed.

Lemma handle_reviewsRequest st id :
  handle st (reviewsRequest id) = getMovieReviews id st (reviewsRequest id).
Proof. reflexivity. Qed.

(** C10.  In a reachable store, listing the reviews of a movie id that
    resolves to no catalog entry succeeds with status 200 and an empty
    list: the handler never looks the movie up. *)
Theorem C10_reviews_of_unknown_movie (st : store) (id : string) :
  reachable st ->
  (forall m, In m (movies st) ->
             JS.eqNum (Movie.id m) (JS.parseInt id) = false) ->
  handle st (reviewsRequest id) = (st, respond 200 (ReviewsJson [])).
Proof.
  intros Hreach Hnone. rewrite handle_reviewsRequest. unfold getMovieReviews.
  assert (Hf : filter (fun review => JS.eqNum (Review.movieId review)
                                       (JS.parseInt id)) (reviews st) = []).
  { apply filter_nil_iff. intros r Hr.
    destruct (wf_review_movies (reachable_wellFormed Hreach) r Hr)
      as (m & Hm & Hid).
    rewrite <- Hid. now apply Hnone. }
  now rewrite Hf.
Qed.

End StoreClaims.

(** ** Watchlists *)

Lemma findIndex_splice1_none {A B} (p : A -> bool) (g : A -> B) (l : list A) :
  NoDup (map g l) ->
  (forall x y, p x = true -> p y = true -> g x = g y) ->
  JS.findIndex p l <> (-1)%Z ->
  JS.findIndex p (JS.splice1 l (JS.findIndex p l)) = (-1)%Z.
Proof.
  intros Hnd Hsame Hidx.
  destruct (findIndex_found p l Hidx) as (y & Hnth & Hpy & _ & Hbefore).
  apply findIndex_none. intros x Hx. unfold JS.splice1 in Hx.
  apply in_app_or in Hx. destruct Hx as [Hx|Hx]; [now apply Hbefore|].
  destruct (p x) eqn:Hpx; [exfalso|reflexivity].
  rewrite <- (firstn_skipn_middle _ _ Hnth) in Hnd.
  rewrite map_app in Hnd. simpl in Hnd. apply NoDup_remove_2 in Hnd.
  apply Hnd. apply in_or_app. right.
  rewrite (Hsame y x Hpy Hpx). now apply in_map.
Qed.

Section WatchlistClaims.

Context {env : Env}.

Lemma handle_addToWatchlistRequest st id userId username movieId now :
  handle st (addToWatchlistRequest id userId username movieId now)
  = postWatchlist id st (addToWatchlistRequest id userId username movieId now).
Proof. reflexivity. Qed.

Lemma handle_removeFromWatchlistRequest st id userId username movieId :
  handle st (removeFromWatchlistRequest id userId username movieId)
  = deleteWatchlist id movieId st
      (removeFromWatchlistRequest id userId username movieId).
Proof. reflexivity. Qed.

(** C9.  When [addToWatchlist(A, M)] is answered 201, the same addition
    repeated on the store it leaves is answered 400 "Movie already in
    watchlist"; when, in a reachable store, [removeFromWatchlist(A, M)] is
    answered 200, the same removal repeated on the store it leaves is
    answered 404 "Movie not in watchlist".  Neither repetition changes
    the store. *)
Theorem C9_watchlist_repeated (st : store) (id : string) (userId : Z)
    (username : string) (movieId : Z) (movieParam now : string) :
  (Response.status
     (snd (handle st (addToWatchlistRequest id userId username movieId now)))
   = 201%Z ->
   let st1 :=
     fst (handle st (addToWatchlistRequest id userId username movieId now)) in
   forall username' now',
     handle st1 (addToWatchlistRequest id userId username' movieId now')
     = (st1, respond 400 (ErrorJson "Movie already in watchlist")))
  /\ (reachable st ->
      Response.status
        (snd (handle st
                (removeFromWatchlistRequest id userId username movieParam)))
      = 200%Z ->
      let st1 :=
        fst (handle st
               (removeFromWatchlistRequest id userId username movieParam)) in
      forall username',
        handle st1 (removeFromWatchlistRequest id userId username' movieParam)
        = (st1, respond 404 (ErrorJson "Movie not in watchlist"))).
Proof.
  split.
  - rewrite handle_addToWatchlistRequest. intros Hst st1 username' now'.
    subst st1. rewrite handle_addToWatchlistRequest. revert Hst.
    unfold postWatchlist, authenticated, addToWatchlistRequest.
    cbn [Request.cred Request.payload Request.now].
    destruct (watchlistErrors (WatchlistBody movieId)); [|discriminate].
    destruct (JS.parseInt id) as [uid|]; [|discriminate].
    destruct (negb (userId =? uid)%Z); [discriminate|].
    destruct (find _ (movies st)) as [movie|] eqn:Hm; [|discriminate].
    destruct (find _ (watchlists st)) as [w|] eqn:Hw; [discriminate|].
    intros _. cbn [fst movies watchlists]. rewrite Hm.
    rewrite (find_app_none _ _ _ Hw). cbn [find WatchlistItem.userId
      WatchlistItem.movieId]. now rewrite !Z.eqb_refl.
  - intros Hreach. rewrite handle_removeFromWatchlistRequest.
    intros Hst st1 username'. subst st1.
    rewrite handle_removeFromWatchlistRequest. revert Hst.
    unfold deleteWatchlist, authenticated, removeFromWatchlistRequest.
    cbn [Request.cred].
    destruct (negb (JS.eqNum userId (JS.parseInt id))); [discriminate|].
    set (p := fun item =>
                JS.eqNum (WatchlistItem.userId item) (JS.parseInt id)
                && JS.eqNum (WatchlistItem.movieId item)
                     (JS.parseInt movieParam)).
    destruct (JS.findIndex p (watchlists st) =? -1)%Z eqn:E; [discriminate|].
    intros _. cbn [fst watchlists]. apply Z.eqb_neq in E.
    rewrite (findIndex_splice1_none p
               (fun w => (WatchlistItem.userId w, WatchlistItem.movieId w))).
    + reflexivity.
    + apply (wf_watchlist_pairs (reachable_wellFormed Hreach)).
    + intros x y Hx Hy. unfold p in Hx, Hy.
      apply andb_true_iff in Hx, Hy. destruct Hx as [Hx1 Hx2], Hy as [Hy1 Hy2].
      destruct (JS.parseInt id) as [u|]; [|discriminate].
      destruct (JS.parseInt movieParam) as [v|]; [|discriminate].
      apply eqNum_Some in Hx1, Hx2, Hy1, Hy2. congruence.
    + exact E.
Qed.

End WatchlistClaims.

(** ** Featured movies *)

Section Routing.

Context {env : Env}.


(** C7.  [GET /api/movies/featured] never reaches the featured handler:
    the route [/api/movies/:id], registered earlier, takes the request
    with [id = "featured"], which is no number, and answers 404 "Movie not
    found" in every store. *)
Theorem C7_featured_is_shadowed (st : store) (q : Query.t) (c : credential)
    (b : body) (now salt : string) :
  handle st (Request.mk GET ["api"; "movies"; "featured"] q c b now salt)
  = (st, respond 404 (ErrorJson "Movie not found")).
Proof.
  change (getMovieById "featured" st
            (Request.mk GET ["api"; "movies"; "featured"] q c b now salt)
          = (st, respond 404 (ErrorJson "Movie not found"))).
  unfold getMovieById.
  change (JS.parseInt "featured") with (@None Z).
  assert (H : find (fun m => JS.eqNum (Movie.id m) None) (movies st) = None).
  { induction (movies st) as [|m l IH]; [reflexivity|exact IH]. }
  now rewrite H.
Qed.

End Routing.

(** ** The watchlist ids after a removal *)

(** C6.  After Ann adds movies 1 and 2 to her watchlist, removes movie 1
    and adds movie 3, the new entry receives id 2, the id of the entry for
    movie 2 that is still there: ids come from [watchlists.length + 1],
    and the length shrinks on removal. *)
Theorem C6_watchlist_id_reused :
  let final := run (env := sampleEnv) initialStore reuseSession in
  map (fun w => (WatchlistItem.id w, WatchlistItem.movieId w))
    (watchlists final)
  = [(2%Z, 2%Z); (2%Z, 3%Z)]
  /\ ~ NoDup (map WatchlistItem.id (watchlists final)).
Proof.
  split; [reflexivity|].
  intros H. change (NoDup [2%Z; 2%Z]) in H.
  inversion H as [|? ? Hnot _]; subst. apply Hnot. now left.
Qed.

(** ** The sample session *)


Section Runs.

Context {env : Env}.

Lemma reachable_run (st : store) (reqs : list Request.t) :
  reachable st -> reachable (run st reqs).
Proof.
  revert st. induction reqs as [|req reqs IH]; intros st H; [exact H|].
  apply IH. now apply reach_handle.
Defined.

End Runs.


Lemma C8_witness :
  pageOfResponse
    (snd (handle (env := sampleEnv) sampleStore (listRequest fifthPageByRating)))
  = []
  /\ totalPagesOfResponse
       (snd (handle (env := sampleEnv) sampleStore
               (listRequest fifthPageByRating)))
     = totalPagesOfResponse
         (snd (handle (env := sampleEnv) sampleStore
                 (listRequest (withPage fifthPageByRating 1)))).
Proof.
  assert (H1 : (1 <= pageOf fifthPageByRating)%Z) by now vm_compute.
  assert (H2 : (0 < limitOf fifthPageByRating)%Z) by now vm_compute.
  assert (H3 : totalPagesOfResponse
                 (snd (handle (env := sampleEnv) sampleStore
                         (listRequest fifthPageByRating))) = Some 2%Z)
    by reflexivity.
  assert (H4 : (2 < pageOf fifthPageByRating)%Z) by now vm_compute.
  destruct (C8_page_beyond_last (env := sampleEnv) sampleStore
              fifthPageByRating 1 H1 H2 H3 H4) as (_ & Hempty & _ & Hpages).
  split; [exact Hempty|exact Hpages].
Defined.


Lemma C5_witness :
  handle (env := sampleEnv) annStore
    (addReviewRequest "99" 1 "ann" 5 "great" "2024-01-02T00:00:00.000Z")
  = (annStore, respond 404 (ErrorJson "Movie not found"))
  /\ handle (env := sampleEnv)
       (fst (handle (env := sampleEnv) annStore
               (addReviewRequest "1" 1 "ann" 5 "great"
                  "2024-01-02T00:00:00.000Z")))
       (addReviewRequest "1" 1 "ann" 3 "meh" "2024-01-03T00:00:00.000Z")
     = (fst (handle (env := sampleEnv) annStore
               (addReviewRequest "1" 1 "ann" 5 "great"
                  "2024-01-02T00:00:00.000Z")),
        respond 400 (ErrorJson "You have already reviewed this movie")).
Proof.
  assert (Hr : (1 <= 5 <= 5)%Z) by lia.
  assert (Hr' : (1 <= 3 <= 5)%Z) by lia.
  assert (Ht : "great" <> "") by discriminate.
  assert (Ht' : "meh" <> "") by discriminate.
  split.
  - destruct (C5_addReview_contract (env := sampleEnv) annStore "99" 1 "ann"
                "2024-01-02T00:00:00.000Z" Hr Ht) as [Hnf _].
    apply Hnf. intros m Hm. vm_compute in Hm.
    destruct Hm as [<-|[<-|[<-|[]]]]; reflexivity.
  - destruct (C5_addReview_contract (env := sampleEnv) annStore "1" 1 "ann"
                "2024-01-02T00:00:00.000Z" Hr Ht) as [_ Hcreated].
    destruct (Hcreated eq_refl) as [_ Hsecond].
    apply Hsecond; [apply steps_refl|exact Hr'|exact Ht'].
Defined.

Lemma sampleStore_reachable : reachable (env := sampleEnv) sampleStore.
Proof. apply reachable_run, reach_init. Defined.

Lemma C2_witness :
  In reviewedMovie (movies sampleStore)
  /\ (ratingInvariant sampleStore reviewedMovie
      \/ (In reviewedMovie seedMovies
          /\ movieReviews sampleStore (Movie.id reviewedMovie) = [])).
Proof.
  assert (Hin : In reviewedMovie (movies sampleStore)) by (left; reflexivity).
  split; [exact Hin|].
  exact (@C2_rating_invariant_after_seed sampleEnv sampleStore reviewedMovie
           sampleStore_reachable Hin).
Defined.

(** C2, as stated, fails in the seeded store: the first entry carries the
    rating 4.8 and no review references it. *)
Lemma C2_seeded_rating_counterexample :
  ~ (forall st, reachable (env := sampleEnv) st ->
                forall m, In m (movies st) -> ratingInvariant st m).
Proof.
  intros H.
  specialize (H initialStore (reach_init (env := sampleEnv))
                (hd reviewedMovie seedMovies) (or_introl eq_refl)).
  unfold ratingInvariant, isAggregate in H. simpl in H.
  discriminate H.
Qed.

Lemma C9_witness :
  handle (env := sampleEnv)
    (fst (handle (env := sampleEnv) annStore
            (addToWatchlistRequest "1" 1 "ann" 1 "2024-01-03T00:00:00.000Z")))
    (addToWatchlistRequest "1" 1 "ann" 1 "2024-01-04T00:00:00.000Z")
  = (fst (handle (env := sampleEnv) annStore
            (addToWatchlistRequest "1" 1 "ann" 1 "2024-01-03T00:00:00.000Z")),
     respond 400 (ErrorJson "Movie already in watchlist"))
  /\ handle (env := sampleEnv)
       (fst (handle (env := sampleEnv) sampleStore
               (removeFromWatchlistRequest "1" 1 "ann" "1")))
       (removeFromWatchlistRequest "1" 1 "ann" "1")
     = (fst (handle (env := sampleEnv) sampleStore
               (removeFromWatchlistRequest "1" 1 "ann" "1")),
        respond 404 (ErrorJson "Movie not in watchlist")).
Proof.
  split.
  - destruct (C9_watchlist_repeated (env := sampleEnv) annStore "1" 1 "ann" 1
                "1" "2024-01-03T00:00:00.000Z") as [Hadd _].
    exact (Hadd eq_refl "ann" "2024-01-04T00:00:00.000Z").
  - destruct (C9_watchlist_repeated (env := sampleEnv) sampleStore "1" 1 "ann"
                1 "1" "") as [_ Hdel].
    exact (Hdel sampleStore_reachable eq_refl "ann").
Defined.

Lemma C10_witness :
  handle (env := sampleEnv) sampleStore (reviewsRequest "99")
  = (sampleStore, respond 200 (ReviewsJson [])).
Proof.
  apply (C10_reviews_of_unknown_movie (env := sampleEnv) "99"
           sampleStore_reachable).
  intros m Hm. vm_compute in Hm.
  destruct Hm as [<-|[<-|[<-|[]]]]; reflexivity.
Defined.

(** * Further properties *)

(** ** What a request does to the store, in detail *)

Lemma eqNum_same (a b : Z) (n : option Z) :
  JS.eqNum a n = true -> JS.eqNum b n = true -> a = b.
Proof.
  destruct n as [k|]; simpl; [|discriminate].
  rewrite !Z.eqb_eq. congruence.
Qed.

Section Effects.

Context {env : Env}.

Lemma registerInsert_effect st username email hashed now :
  effect false st (fst (registerInsert st username email hashed now)).
Proof.
  unfold registerInsert. cbn [fst].
  apply eff_user_add; [reflexivity|discriminate].
Qed.

Lemma postRegister_effect st req : effect true st (fst (postRegister st req)).
Proof.
  unfold postRegister. handler_cases; try apply eff_none.
  unfold registerInsert. cbn [fst].
  apply eff_user_add; [reflexivity|].
  intros _ x Hx. cbn [User.email User.username].
  match goal with
  | H : find _ (users st) = None |- _ =>
      pose proof (find_none _ _ H x Hx) as Hf
  end.
  cbv beta in Hf. apply orb_false_iff in Hf. destruct Hf as [He Hu].
  apply String.eqb_neq in He, Hu. now split.
Qed.

Lemma putUser_effect id st req : effect true st (fst (putUser id st req)).
Proof.
  unfold putUser, authenticated.
  destruct (Request.cred req) as [| |tokenUserId tokenName];
    try apply eff_none.
  destruct (userErrors (Request.payload req)); [|apply eff_none].
  destruct (negb (JS.eqNum tokenUserId (JS.parseInt id))); [apply eff_none|].
  set (p := fun u => JS.eqNum (User.id u) (JS.parseInt id)).
  destruct (JS.findIndex p (users st) =? -1)%Z eqn:E; [apply eff_none|].
  apply Z.eqb_neq in E.
  destruct (findIndex_found p (users st) E) as (x & Hnth & Hpx & _ & _).
  destruct (match Request.payload req with
            | UserBody username email profilePicture =>
                (option_map JS.trim username,
                 option_map normalizeEmail email, profilePicture)
            | _ => (None, None, None)
            end) as [[username email] profilePicture].
  destruct (JS.truthy username && _) eqn:Hu; [apply eff_none|].
  destruct (JS.truthy email && _) eqn:He; [apply eff_none|].
  destruct (nth_error (updateAt _ _ _) _); [|apply eff_none]. cbn [fst].
  apply (eff_user_update true st (Z.to_nat (JS.findIndex p (users st)))
           username email profilePicture Hnth).
  - intros Ht y Hy Heq. rewrite Ht in Hu. simpl in Hu.
    destruct (JS.eqNum (User.id y) (JS.parseInt id)) eqn:Hyid.
    + eapply eqNum_same; eassumption.
    + match type of Hu with
      | ?lhs = false => assert (Hex : lhs = true)
      end.
      { apply existsb_exists. exists y. split; [exact Hy|].
        rewrite Heq, String.eqb_refl, Hyid. reflexivity. }
      congruence.
  - intros Ht y Hy Heq. rewrite Ht in He. simpl in He.
    destruct (JS.eqNum (User.id y) (JS.parseInt id)) eqn:Hyid.
    + eapply eqNum_same; eassumption.
    + match type of He with
      | ?lhs = false => assert (Hex : lhs = true)
      end.
      { apply existsb_exists. exists y. split; [exact Hy|].
        rewrite Heq, String.eqb_refl, Hyid. reflexivity. }
      congruence.
Qed.

Lemma postMovie_effect st req : effect true st (fst (postMovie st req)).
Proof.
  unfold postMovie. handler_cases; try apply eff_none.
  all: now apply eff_movie.
Qed.

Lemma reviewErrors_nil (b : body) :
  reviewErrors b = [] ->
  exists rating reviewText,
    b = ReviewBody rating reviewText
    /\ (1 <= rating <= 5)%Z /\ reviewText <> "".
Proof.
  destruct b; try discriminate. unfold reviewErrors.
  destruct ((1 <=? rating)%Z && (rating <=? 5)%Z) eqn:Hr; [|discriminate].
  destruct (String.eqb_spec reviewText ""); [discriminate|].
  intros _. exists rating, reviewText.
  apply andb_true_iff in Hr. destruct Hr as [H1 H2].
  apply Z.leb_le in H1, H2. repeat split; auto.
Qed.

Lemma postMovieReview_effect id st req :
  effect true st (fst (postMovieReview id st req)).
Proof.
  unfold postMovieReview, authenticated.
  destruct (Request.cred req) as [| |userId userName]; try apply eff_none.
  destruct (reviewErrors (Request.payload req)) eqn:Herr; [|apply eff_none].
  destruct (reviewErrors_nil _ Herr) as (rating & text & -> & Hr & _).
  destruct (find _ (movies st)) as [movie|] eqn:Hm; [|apply eff_none].
  destruct (JS.parseInt id) as [movieId|]; [|apply eff_none].
  destruct (find _ (reviews st)) as [old|] eqn:Hold; [apply eff_none|].
  apply find_some in Hm. destruct Hm as [Hin Hid]. apply eqNum_Some in Hid.
  assert (Heff : effect true st
                   (updateAverage
                      (mkStore (movies st) (users st)
                         (reviews st
                          ++ [Review.mk (len (reviews st) + 1) movieId userId
                                rating (JS.trim text) (Request.now req)])
                         (watchlists st)) movieId)).
  { apply (eff_review true st
             (Review.mk (len (reviews st) + 1) movieId userId rating
                (JS.trim text) (Request.now req)));
      [reflexivity|exact Hr|exists movie; now split|exact Hold]. }
  destruct (find _ (users _)); exact Heff.
Qed.

Lemma postWatchlist_effect id st req :
  effect true st (fst (postWatchlist id st req)).
Proof.
  unfold postWatchlist. handler_cases; try apply eff_none.
  all: match goal with
       | |- effect _ _ (mkStore _ _ _ (_ ++ [?w])) =>
           apply (eff_watch_add true _ w); [reflexivity| |assumption]
       end.
  all: match goal with
       | H : find _ (movies _) = Some ?m |- _ =>
           apply find_some in H; destruct H as [Hin Hid];
           apply Z.eqb_eq in Hid; exists m; now split
       end.
Qed.

Lemma deleteWatchlist_effect id movieId st req :
  effect true st (fst (deleteWatchlist id movieId st req)).
Proof.
  unfold deleteWatchlist. handler_cases; try apply eff_none.
  all: apply eff_watch_del.
  all: match goal with
       | H : (?i =? -1)%Z = false |- _ =>
           apply Z.eqb_neq in H;
           match i with
           | JS.findIndex ?p ?l => pose proof (findIndex_lower p l)
           end
       end.
  all: lia.
Qed.

Lemma handle_effect st req : effect true st (fst (handle st req)).
Proof.
  unfold handle.
  apply (dispatchIn_holds (fun r => effect true st (fst r))); [|apply eff_none].
  intros m pat h ps Hin. unfold routes in Hin. simpl in Hin.
  repeat (destruct Hin as [Hin|Hin]; [injection Hin as <- <- <-|]);
    try contradiction;
    unfold noParam, oneParam, twoParams;
    repeat (break_match; try apply eff_none);
    auto using postRegister_effect, putUser_effect, postMovie_effect,
      postMovieReview_effect, postWatchlist_effect, deleteWatchlist_effect,
      eff_none.
  - unfold postLogin. handler_cases; apply eff_none.
  - unfold getMovieById. handler_cases; apply eff_none.
  - unfold getUser. handler_cases; apply eff_none.
  - unfold getWatchlist. handler_cases; apply eff_none.
Qed.

Lemma effect_weaken (st st' : store) :
  effect true st st' -> effect false st st'.
Proof.
  intros H. destruct H.
  - apply eff_none.
  - apply eff_user_add; [assumption|discriminate].
  - eapply eff_user_update; eassumption.
  - now apply eff_movie.
  - now apply eff_review.
  - now apply eff_watch_add.
  - now apply eff_watch_del.
Qed.

(** Every step of the process has an effect. *)
Lemma steps_effects (P : store -> Prop) (st st' : store) :
  (forall a b, P a -> effect false a b -> P b) ->
  steps st st' -> P st -> P st'.
Proof.
  intros Hstep Hsteps. induction Hsteps as [st|st st' req _ IH
    |st st' username email hashed now _ IH]; intros H0.
  - exact H0.
  - apply (Hstep st'); [now apply IH|]. apply effect_weaken, handle_effect.
  - apply (Hstep st'); [now apply IH|]. apply registerInsert_effect.
Qed.

Lemma reachable_steps (st : store) : reachable st -> steps initialStore st.
Proof.
  induction 1; [apply steps_refl|now apply steps_handle|now apply steps_insert].
Qed.

End Effects.

(** ** Further invariants *)

Lemma NoDup_snoc {A} (l : list A) (a : A) :
  NoDup l -> ~ In a l -> NoDup (l ++ [a]).
Proof.
  intros Hnd Hnot. apply NoDup_rev in Hnd.
  rewrite <- (rev_involutive (l ++ [a])). apply NoDup_rev.
  rewrite rev_app_distr. simpl. constructor; [|exact Hnd].
  now rewrite <- in_rev.
Qed.

Lemma ids_snoc {A} (f : A -> Z) (l : list A) (x : A) :
  map f l = map Z.of_nat (seq 1 (List.length l)) ->
  f x = (len l + 1)%Z ->
  map f (l ++ [x]) = map Z.of_nat (seq 1 (List.length (l ++ [x]))).
Proof.
  intros Hl Hx. rewrite map_app, length_app, seq_app, map_app, Hl.
  simpl. rewrite Hx. unfold len. do 2 f_equal. lia.
Qed.

Lemma applyUserUpdate_fields username email profilePicture (u : User.t) :
  fixedFields (applyUserUpdate username email profilePicture u) = fixedFields u
  /\ User.username (applyUserUpdate username email profilePicture u)
     = (if JS.truthy username then orElse username "" else User.username u)
  /\ User.email (applyUserUpdate username email profilePicture u)
     = (if JS.truthy email then orElse email "" else User.email u).
Proof.
  unfold applyUserUpdate, fixedFields.
  destruct (JS.truthy username), (JS.truthy email),
    (JS.truthy profilePicture); repeat split.
Qed.

Lemma applyUserUpdate_id username email profilePicture (u : User.t) :
  User.id (applyUserUpdate username email profilePicture u) = User.id u.
Proof.
  destruct (applyUserUpdate_fields username email profilePicture u) as [H _].
  unfold fixedFields in H. congruence.
Qed.

Lemma NoDup_map_updateAt {A B} (g : A -> B) (f : A -> A) (l : list A)
    (i : nat) (x : A) :
  NoDup (map g l) ->
  nth_error l i = Some x ->
  (forall j y, nth_error l j = Some y -> j <> i -> g y <> g (f x)) ->
  NoDup (map g (updateAt l i f)).
Proof.
  revert i. induction l as [|a l IH]; intros i Hnd Hnth Hother.
  - destruct i; discriminate.
  - inversion Hnd as [|? ? Hnot Hnd']; subst.
    destruct i as [|i]; simpl in *.
    + injection Hnth as ->. constructor; [|exact Hnd'].
      rewrite in_map_iff. intros (y & Hy & Hin).
      apply In_nth_error in Hin. destruct Hin as [j Hj].
      apply (Hother (S j) y Hj); [discriminate|exact Hy].
    + constructor.
      * rewrite in_map_iff. intros (y & Hy & Hin).
        apply In_updateAt in Hin.
        destruct Hin as (j & z & Hj & [[-> ->]|[Hne ->]]).
        -- rewrite Hnth in Hj. injection Hj as <-.
           apply (Hother 0%nat a eq_refl); [discriminate|now symmetry].
        -- apply Hnot. rewrite <- Hy. apply in_map.
           eapply nth_error_In. eassumption.
      * apply (IH i Hnd' Hnth). intros j y Hj Hne.
        apply (Hother (S j) y Hj). lia.
Qed.

Lemma same_id_same_index {A} (f : A -> Z) (l : list A) (i j : nat) (x y : A) :
  map f l = map Z.of_nat (seq 1 (List.length l)) ->
  nth_error l i = Some x -> nth_error l j = Some y -> f x = f y -> i = j.
Proof.
  intros Hids Hi Hj Heq.
  pose proof (NoDup_ids (List.length l)) as Hnd. rewrite <- Hids in Hnd.
  rewrite NoDup_nth_error in Hnd. apply Hnd.
  - rewrite length_map. apply nth_error_Some. congruence.
  - rewrite !nth_error_map, Hi, Hj. simpl. congruence.
Qed.

Lemma initialStore_detailed : detailed initialStore.
Proof.
  constructor; try reflexivity.
  - intros r [].
  - constructor.
  - intros w [].
Qed.

Lemma effect_detailed (serial : bool) (st st' : store) :
  detailed st -> effect serial st st' -> detailed st'.
Proof.
  intros [Hu Hi Hr Hp Hw] Heff.
  destruct Heff as [|u Hid _|i x un em pp Hnth _ _|m Hid _|r Hid Hrat Hex Hnone
                   |w Hid Hex Hnone|i Hi0].
  - now constructor.
  - constructor; try assumption. cbn [users]. now apply ids_snoc.
  - constructor; try assumption. cbn [users].
    rewrite length_updateAt, map_updateAt; [exact Hu|].
    intros y. apply applyUserUpdate_id.
  - constructor; try assumption. cbn [movies watchlists].
    intros w Hin. rewrite map_app. apply in_or_app. left. now apply Hw.
  - unfold updateAverage. cbn [movies users reviews watchlists].
    constructor; cbn [movies users reviews watchlists].
    + exact Hu.
    + now apply ids_snoc.
    + intros r' Hin. apply in_app_or in Hin. destruct Hin as [Hin|[<-|[]]];
        [now apply Hr|exact Hrat].
    + rewrite map_app. apply NoDup_snoc; [exact Hp|].
      rewrite in_map_iff. intros (y & Hy & Hin).
      pose proof (find_none _ _ Hnone y Hin) as Hf. cbv beta in Hf.
      unfold reviewPair in Hy. injection Hy as Hyu Hym.
      rewrite Hyu, Hym, !Z.eqb_refl in Hf. discriminate.
    + intros w Hin. rewrite map_updateAt by reflexivity. now apply Hw.
  - constructor; try assumption. cbn [movies watchlists].
    intros w' Hin. apply in_app_or in Hin. destruct Hin as [Hin|[<-|[]]];
      [now apply Hw|].
    now apply id_in_movies.
  - constructor; try assumption. cbn [movies watchlists].
    intros w Hin. apply Hw. unfold JS.splice1 in Hin.
    apply in_app_or in Hin. destruct Hin as [Hin|Hin];
      [eapply In_firstn|eapply In_skipn]; eassumption.
Qed.

Lemma effect_accountsUnique (st st' : store) :
  detailed st -> accountsUnique st -> effect true st st' ->
  accountsUnique st'.
Proof.
  intros Hd [Hn He] Heff.
  destruct Heff as [|u Hid Hfresh|i x un em pp Hnth Hun Hem|m Hid _
                   |r Hid Hrat Hex Hnone|w Hid Hex Hnone|i Hi0];
    try (constructor; assumption).
  - specialize (Hfresh eq_refl).
    constructor; cbn [users]; rewrite map_app; apply NoDup_snoc;
      try assumption; rewrite in_map_iff; intros (y & Hy & Hin);
      destruct (Hfresh y Hin) as [H1 H2]; congruence.
  - destruct (applyUserUpdate_fields un em pp x) as (_ & Hname & Hmail).
    constructor; cbn [users].
    + destruct (JS.truthy un) eqn:Ht.
      * apply (NoDup_map_updateAt _ _ _ Hn Hnth).
        intros j y Hj Hne Heq. rewrite Hname in Heq. apply Hne.
        apply (@same_id_same_index _ User.id (users st) j i y x
                 (dt_user_ids Hd) Hj Hnth).
        apply (Hun eq_refl y); [eapply nth_error_In; eassumption|exact Heq].
      * rewrite map_updateAt; [exact Hn|].
        intros y.
        destruct (applyUserUpdate_fields un em pp y) as (_ & Hy & _).
        now rewrite Hy, Ht.
    + destruct (JS.truthy em) eqn:Ht.
      * apply (NoDup_map_updateAt _ _ _ He Hnth).
        intros j y Hj Hne Heq. rewrite Hmail in Heq. apply Hne.
        apply (@same_id_same_index _ User.id (users st) j i y x
                 (dt_user_ids Hd) Hj Hnth).
        apply (Hem eq_refl y); [eapply nth_error_In; eassumption|exact Heq].
      * rewrite map_updateAt; [exact He|].
        intros y.
        destruct (applyUserUpdate_fields un em pp y) as (_ & _ & Hy).
        now rewrite Hy, Ht.
Qed.

Section MoreReachability.

Context {env : Env}.

Lemma reachable_detailed (st : store) : reachable st -> detailed st.
Proof.
  intros H. apply reachable_steps in H.
  apply (steps_effects detailed (st := initialStore));
    [|exact H|apply initialStore_detailed].
  intros a b Ha Hab. eapply effect_detailed; eassumption.
Qed.

Lemma run_serial (st : store) (reqs : list Request.t) :
  detailed st -> accountsUnique st ->
  detailed (run st reqs) /\ accountsUnique (run st reqs).
Proof.
  revert st. induction reqs as [|req reqs IH]; intros st Hd Hu;
    [now split|].
  apply IH.
  - eapply effect_detailed; [exact Hd|apply handle_effect].
  - eapply effect_accountsUnique; [exact Hd|exact Hu|apply handle_effect].
Qed.

End MoreReachability.

(** ** Routing and authentication *)

Section RoutingFacts.

Context {env : Env}.

Lemma dispatchIn_holds_meth (P : store * Response.t -> Prop)
    (rs : list (method * list segment * handler)) (st : store)
    (req : Request.t) :
  (forall m pat h ps, In (m, pat, h) rs ->
     method_eqb m (Request.meth req) = true -> P (h ps st req)) ->
  P (routeNotFound st req) ->
  P (dispatchIn rs st req).
Proof.
  intros Hrs Hnf. induction rs as [|[[m pat] h] rs IH]; simpl; [exact Hnf|].
  assert (IH' : P (dispatchIn rs st req)).
  { apply IH. intros. eapply Hrs; [right|]; eassumption. }
  destruct (method_eqb m (Request.meth req)) eqn:Hm; [|exact IH'].
  destruct (matchPath pat (Request.path req)) as [ps|]; [|exact IH'].
  eapply Hrs; [left; reflexivity|exact Hm].
Qed.


(** X1.  A [GET] request never changes the store, whatever its path,
    query, token and body. *)
Theorem X1_get_is_read_only (st : store) (req : Request.t) :
  Request.meth req = GET -> fst (handle st req) = st.
Proof.
  intros Hget. unfold handle.
  apply (dispatchIn_holds_meth (fun r => fst r = st)); [|reflexivity].
  intros m pat h ps Hin Hm. rewrite Hget in Hm.
  unfold routes in Hin. simpl in Hin.
  repeat (destruct Hin as [Hin|Hin]; [injection Hin as <- <- <-|]);
    try contradiction; try discriminate Hm;
    unfold noParam, oneParam, twoParams;
    repeat (break_match; try reflexivity); try reflexivity.
  - unfold getMovieById. handler_cases; reflexivity.
  - unfold getUser. handler_cases; reflexivity.
  - unfold getWatchlist. handler_cases; reflexivity.
Qed.

Lemma dispatchIn_holds_route (P : store * Response.t -> Prop)
    (rs : list (method * list segment * handler)) (st : store)
    (req : Request.t) :
  (forall m pat h ps, In (m, pat, h) rs ->
     method_eqb m (Request.meth req) = true ->
     matchPath pat (Request.path req) = Some ps ->
     P (h ps st req)) ->
  P (routeNotFound st req) ->
  P (dispatchIn rs st req).
Proof.
  intros Hrs Hnf. induction rs as [|[[m pat] h] rs IH]; simpl; [exact Hnf|].
  assert (IH' : P (dispatchIn rs st req)).
  { apply IH. intros. eapply Hrs; [right|..]; eassumption. }
  destruct (method_eqb m (Request.meth req)) eqn:Hm; [|exact IH'].
  destruct (matchPath pat (Request.path req)) as [ps|] eqn:Hp; [|exact IH'].
  eapply Hrs; [left; reflexivity|exact Hm|exact Hp].
Qed.

Lemma matchPath_literals (ls path ps : list string) :
  matchPath (map Lit ls) path = Some ps -> path = ls.
Proof.
  revert path. induction ls as [|l ls IH]; intros [|x path]; simpl;
    try discriminate; [reflexivity|].
  destruct (String.eqb_spec l x) as [->|]; [|discriminate].
  intros H. f_equal. now apply IH.
Qed.

(** X2.  A request without a verified token (none, or one that
    [jwt.verify] rejects) never changes the catalog, the reviews or the
    watchlists, and it leaves the accounts as they are unless it is
    [POST /api/auth/register], which appends one account: registration is
    the only write open to it. *)
Theorem X2_no_token_no_write (st : store) (req : Request.t) :
  (forall userId username, Request.cred req <> ValidToken userId username) ->
  movies (fst (handle st req)) = movies st
  /\ reviews (fst (handle st req)) = reviews st
  /\ watchlists (fst (handle st req)) = watchlists st
  /\ (users (fst (handle st req)) = users st
      \/ (Request.meth req = POST
          /\ map JS.toLowerCase (Request.path req)
             = ["api"; "auth"; "register"]
          /\ exists u,
               users (fst (handle st req)) = (users st ++ [u])%list)).
Proof.
  intros Hcred. unfold handle.
  set (A := fun r : store * Response.t =>
              movies (fst r) = movies st
              /\ reviews (fst r) = reviews st
              /\ watchlists (fst r) = watchlists st
              /\ (users (fst r) = users st
                  \/ (Request.meth req = POST
                      /\ map JS.toLowerCase (Request.path req)
                         = ["api"; "auth"; "register"]
                      /\ exists u, users (fst r) = (users st ++ [u])%list))).
  assert (Hsame : forall resp, A (st, resp)).
  { intros resp. unfold A. cbn [fst].
    split; [reflexivity|split; [reflexivity|split; [reflexivity|now left]]]. }
  assert (Hauth : forall k, A (authenticated req k st)).
  { intros k. unfold authenticated.
    destruct (Request.cred req) as [| |u n] eqn:Hc; try apply Hsame.
    exfalso. exact (Hcred u n eq_refl). }
  apply (dispatchIn_holds_route A); [|apply Hsame].
  intros m pat h ps Hin Hm Hp. unfold routes in Hin. simpl in Hin.
  destruct Hin as [Hin|Hin].
  - injection Hin as <- <- <-.
    apply (matchPath_literals ["api"; "auth"; "register"]) in Hp.
    assert (Hmeth : Request.meth req = POST)
      by (destruct (Request.meth req); (reflexivity || discriminate Hm)).
    unfold noParam, postRegister. handler_cases; try apply Hsame.
    unfold A, registerInsert. cbn [fst movies users reviews watchlists].
    split; [reflexivity|split; [reflexivity|split; [reflexivity|right]]].
    split; [exact Hmeth|]. split; [now rewrite Hp|]. eexists. reflexivity.
  - clear Hm Hp.
    repeat (destruct Hin as [Hin|Hin]; [injection Hin as <- <- <-|]);
      try contradiction;
      unfold noParam, oneParam, twoParams;
      repeat (break_match; try apply Hsame);
      try apply Hsame; try apply Hauth.
    + unfold postLogin. handler_cases; apply Hsame.
    + unfold getMovieById. handler_cases; apply Hsame.
Qed.


(** X4.  With a verified token whose [userId] is not the number the path
    names, the three watchlist routes and the profile update touch
    nothing and answer 403 (for the two routes with a validated body: once
    the body passes validation). *)
Theorem X4_foreign_account_forbidden (st : store) (id : string) (userId : Z)
    (username : string) (movieId : Z) (movieParam now : string) (b : body) :
  JS.eqNum userId (JS.parseInt id) = false ->
  handle st (watchlistRequest id userId username)
  = (st, respond 403 (ErrorJson "Not authorized to view this watchlist"))
  /\ handle st (removeFromWatchlistRequest id userId username movieParam)
     = (st, respond 403 (ErrorJson "Not authorized to modify this watchlist"))
  /\ ((1 <= movieId)%Z ->
      handle st (addToWatchlistRequest id userId username movieId now)
      = (st, respond 403
               (ErrorJson "Not authorized to modify this watchlist")))
  /\ (userErrors b = [] ->
      handle st (updateUserRequest id userId username b)
      = (st, respond 403 (ErrorJson "Not authorized to update this profile"))).
Proof.
  intros Hne. split; [|split; [|split]].
  - change (getWatchlist id st (watchlistRequest id userId username)
            = (st, respond 403
                     (ErrorJson "Not authorized to view this watchlist"))).
    unfold getWatchlist, authenticated, watchlistRequest.
    cbn [Request.cred]. now rewrite Hne.
  - rewrite handle_removeFromWatchlistRequest.
    unfold deleteWatchlist, authenticated, removeFromWatchlistRequest.
    cbn [Request.cred]. now rewrite Hne.
  - intros Hm. rewrite handle_addToWatchlistRequest.
    unfold postWatchlist, authenticated, addToWatchlistRequest, watchlistErrors.
    cbn [Request.cred Request.payload].
    destruct (Z.leb_spec 1 movieId); [|lia].
    destruct (JS.parseInt id) as [u|]; [|reflexivity].
    simpl in Hne. now rewrite Hne.
  - intros Hb.
    change (putUser id st (updateUserRequest id userId username b)
            = (st, respond 403
                     (ErrorJson "Not authorized to update this profile"))).
    unfold putUser, authenticated, updateUserRequest.
    cbn [Request.cred Request.payload]. now rewrite Hb, Hne.
Qed.

End RoutingFacts.

(** ** Accounts *)

Lemma find_none_weaker {A} (p q : A -> bool) (l : list A) :
  (forall x, q x = true -> p x = true) ->
  find p l = None -> find q l = None.
Proof.
  intros Hqp Hp. destruct (find q l) as [x|] eqn:Hq; [|reflexivity].
  apply find_some in Hq. destruct Hq as [Hin Hx].
  specialize (Hqp x Hx). rewrite (find_none _ _ Hp x Hin) in Hqp.
  discriminate.
Qed.

Lemma effect_users_fixed (serial : bool) (st st' : store) :
  effect serial st st' ->
  exists extra,
    map fixedFields (users st') = (map fixedFields (users st) ++ extra)%list.
Proof.
  intros H. destruct H; unfold updateAverage; cbn [users];
    try (exists []; now rewrite app_nil_r).
  - exists [fixedFields u]. apply map_app.
  - exists []. rewrite app_nil_r. apply map_updateAt. intros y.
    apply applyUserUpdate_fields.
Qed.

Section AccountFacts.

Context {env : Env}.

(** X5.  When a registration is answered 201 and bcrypt accepts a
    password against its own hash, logging in on the store it leaves with
    the same email and password is answered 200 with the same public
    account (id, trimmed username, normalised email, avatar). *)
Theorem X5_register_then_login (st : store)
    (username email password now salt now' : string) :
  (forall p s, bcrypt_compare p (bcrypt_hash p s) = true) ->
  Response.status
    (snd (handle st (registerRequest username email password now salt)))
  = 201%Z ->
  let st1 :=
    fst (handle st (registerRequest username email password now salt)) in
  exists user,
    snd (handle st (registerRequest username email password now salt))
    = respond 201
        (AuthJson "User created successfully"
           (jwt_sign (PublicUser.id user) (PublicUser.username user) now) user)
    /\ handle st1 (loginRequest email password now')
       = (st1,
          respond 200
            (AuthJson "Login successful"
               (jwt_sign (PublicUser.id user) (PublicUser.username user) now')
               user)).
Proof.
  intros Hbcrypt.
  change (handle st (registerRequest username email password now salt))
    with (postRegister st (registerRequest username email password now salt)).
  unfold postRegister, registerRequest.
  cbn [Request.payload Request.salt Request.now].
  destruct (registerErrors (RegisterBody username email password)) eqn:Herr;
    [|discriminate].
  destruct (find _ (users st)) as [old|] eqn:Hold; [discriminate|].
  intros _. cbv zeta. unfold registerInsert. cbn [fst snd].
  exists (publicUser
            (User.mk (len (users st) + 1) (JS.trim username)
               (normalizeEmail email) (bcrypt_hash password salt)
               ("https://ui-avatars.com/api/?name=" ++ JS.trim username
                ++ "&background=random") now)).
  split; [reflexivity|].
  match goal with
  | |- handle ?s _ = _ =>
      change (postLogin s (loginRequest email password now') = (s,
        respond 200
          (AuthJson "Login successful"
             (jwt_sign (len (users st) + 1) (JS.trim username) now')
             (publicUser
                (User.mk (len (users st) + 1) (JS.trim username)
                   (normalizeEmail email) (bcrypt_hash password salt)
                   ("https://ui-avatars.com/api/?name=" ++ JS.trim username
                    ++ "&background=random") now)))))
  end.
  unfold postLogin, loginRequest, loginErrors.
  cbn [Request.payload Request.now users].
  assert (Hmail : isEmail email = true).
  { unfold registerErrors in Herr.
    destruct (isEmail email); [reflexivity|].
    destruct (String.length username <? 3)%nat; discriminate. }
  rewrite Hmail.
  rewrite find_app_none.
  - cbn [find User.email]. rewrite String.eqb_refl.
    cbn [User.password]. now rewrite Hbcrypt.
  - eapply find_none_weaker; [|exact Hold].
    intros x Hx. cbv beta. now rewrite Hx.
Qed.

(** X6.  When the requests are handled one after the other, no two
    accounts ever share a username or an email: registration and profile
    update both check the other accounts before they write. *)
Theorem X6_accounts_unique_when_serial (reqs : list Request.t) :
  NoDup (map User.username (users (run initialStore reqs)))
  /\ NoDup (map User.email (users (run initialStore reqs))).
Proof.
  destruct (run_serial reqs initialStore_detailed) as [_ [H1 H2]].
  - constructor; constructor.
  - now split.
Qed.

(** X7.  Accounts are never removed, and no route changes an account's
    id, password hash or join date: across any steps the accounts of the
    earlier store are, in these fields, a prefix of the later ones. *)
Theorem X7_account_fields_persist (st st' : store) :
  steps st st' ->
  exists extra,
    map fixedFields (users st')
    = (map fixedFields (users st) ++ extra)%list.
Proof.
  intros Hsteps.
  apply (steps_effects
           (fun s => exists extra,
                       map fixedFields (users s)
                       = (map fixedFields (users st) ++ extra)%list)
           (st := st) (st' := st')).
  - intros a b [e1 H1] Hab.
    destruct (effect_users_fixed Hab) as [e2 H2].
    exists (e1 ++ e2)%list. now rewrite H2, H1, app_assoc.
  - exact Hsteps.
  - exists []. now rewrite app_nil_r.
Qed.

(** X8.  In every reachable store the ids of the accounts, of the movies
    and of the reviews are 1, 2, ..., n in array order: in the three
    collections that only grow, [length + 1] is always a fresh id. *)
Theorem X8_append_only_ids (st : store) :
  reachable st ->
  map User.id (users st) = map Z.of_nat (seq 1 (List.length (users st)))
  /\ map Movie.id (movies st)
     = map Z.of_nat (seq 1 (List.length (movies st)))
  /\ map Review.id (reviews st)
     = map Z.of_nat (seq 1 (List.length (reviews st))).
Proof.
  intros H. pose proof (reachable_detailed H) as Hd.
  pose proof (reachable_wellFormed H) as Hw.
  repeat split; [apply Hd|apply Hw|apply Hd].
Qed.

(** X9.  A login with a well-formed email never changes the store; it is
    answered 200 only if an account with the normalised email exists and
    bcrypt accepts the password against the stored hash of the first such
    account, and every other outcome, unknown email or wrong password
    alike, is the same 400 "Invalid credentials". *)
Theorem X9_login_outcomes (st : store) (email password now : string) :
  isEmail email = true ->
  let r := handle st (loginRequest email password now) in
  fst r = st
  /\ ((exists user,
         find (fun u => String.eqb (User.email u) (normalizeEmail email))
           (users st) = Some user
         /\ bcrypt_compare password (User.password user) = true
         /\ snd r
            = respond 200
                (AuthJson "Login successful"
                   (jwt_sign (User.id user) (User.username user) now)
                   (publicUser user)))
      \/ snd r = respond 400 (ErrorJson "Invalid credentials")).
Proof.
  intros Hmail r. subst r.
  change (handle st (loginRequest email password now))
    with (postLogin st (loginRequest email password now)).
  unfold postLogin, loginRequest, loginErrors.
  cbn [Request.payload Request.now]. rewrite Hmail.
  destruct (find _ (users st)) as [user|] eqn:Hu; [|split; [reflexivity|now right]].
  destruct (bcrypt_compare password (User.password user)) eqn:Hc;
    (split; [reflexivity|]); [left|now right].
  exists user. now repeat split.
Qed.

End AccountFacts.

(** ** Movies and reviews *)

Lemma effect_movies_unrated (serial : bool) (st st' : store) :
  effect serial st st' ->
  exists extra,
    map unrated (movies st') = (map unrated (movies st) ++ extra)%list.
Proof.
  intros H. destruct H; unfold updateAverage; cbn [movies];
    try (exists []; now rewrite app_nil_r).
  - exists [unrated m]. apply map_app.
  - exists []. rewrite app_nil_r. now apply map_updateAt.
Qed.

Lemma effect_reviews_grow (serial : bool) (st st' : store) :
  effect serial st st' ->
  exists extra, reviews st' = (reviews st ++ extra)%list.
Proof.
  intros H. destruct H; unfold updateAverage; cbn [reviews];
    try (exists []; now rewrite app_nil_r).
  now exists [r].
Qed.

Lemma no_movie_beyond (st : store) :
  wellFormed st ->
  find (fun m => JS.eqNum (Movie.id m) (Some (len (movies st) + 1)%Z))
    (movies st) = None.
Proof.
  intros Hwf. destruct (find _ (movies st)) as [m|] eqn:Hf; [|reflexivity].
  apply find_some in Hf. destruct Hf as [Hin Hid]. apply eqNum_Some in Hid.
  apply (in_map Movie.id) in Hin. rewrite (wf_movie_ids Hwf) in Hin.
  apply In_ids in Hin. unfold len in Hid. lia.
Qed.

Lemma sumRatings_bounds (R : list Review.t) :
  (forall r, In r R -> (1 <= Review.rating r <= 5)%Z) ->
  (len R <= sumRatings R <= 5 * len R)%Z.
Proof.
  unfold len, sumRatings. induction R as [|r R IH]; intros H; simpl; [lia|].
  pose proof (H r (or_introl eq_refl)).
  assert (forall x, In x R -> (1 <= Review.rating x <= 5)%Z)
    by (intros x Hx; apply H; now right).
  specialize (IH H1). lia.
Qed.

Lemma rounded_bounds (x r : Q) :
  roundedTo1 x r -> 1 <= x -> x <= 5 -> 1 <= r /\ r <= 5.
Proof.
  intros [[k Hk] [Hlo Hhi]] H1 H5.
  assert (Hk' : r == inject_Z k * (1 # 10)) by (rewrite Hk; reflexivity).
  assert (Hlow : (10 <= k)%Z).
  { assert (H : (19 # 2) < inject_Z k) by lra.
    unfold Qlt in H. simpl in H. lia. }
  assert (Hup : (k <= 50)%Z).
  { assert (H : inject_Z k <= (101 # 2)) by lra.
    unfold Qle in H. simpl in H. lia. }
  rewrite Hk'. split.
  - rewrite Zle_Qle in Hlow. change (inject_Z 10) with 10 in Hlow. lra.
  - rewrite Zle_Qle in Hup. change (inject_Z 50) with 50 in Hup. lra.
Qed.

Lemma calculateAverageRating_bounds (st : store) (id : Z) :
  (forall r, In r (reviews st) -> (1 <= Review.rating r <= 5)%Z) ->
  0 <= calculateAverageRating st id <= 5
  /\ (movieReviews st id <> [] -> 1 <= calculateAverageRating st id).
Proof.
  intros Hr. pose proof (calculateAverageRating_aggregate st id) as Hagg.
  unfold isAggregate in Hagg.
  destruct (movieReviews st id) as [|r R] eqn:E.
  - split; [lra|]. intros H. now contradiction H.
  - assert (Hb : (len (r :: R) <= sumRatings (r :: R) <= 5 * len (r :: R))%Z).
    { apply sumRatings_bounds. intros x Hx. apply Hr.
      rewrite <- E in Hx. unfold movieReviews in Hx.
      now apply filter_In in Hx. }
    assert (Hn : (0 < len (r :: R))%Z) by (unfold len; simpl; lia).
    destruct (rounded_bounds Hagg) as [H1 H5].
    + unfold meanRating. apply Qle_shift_div_l.
      * change 0 with (inject_Z 0). now rewrite <- Zlt_Qlt.
      * rewrite Qmult_1_l. rewrite <- Zle_Qle. apply Hb.
    + unfold meanRating. apply Qle_shift_div_r.
      * change 0 with (inject_Z 0). now rewrite <- Zlt_Qlt.
      * change 5 with (inject_Z 5). rewrite <- inject_Z_mult, <- Zle_Qle.
        apply Hb.
    + split; [lra|]. intros _. exact H1.
Qed.

Lemma trim_onlySpaces (s : string) : onlySpaces s = true -> JS.trim s = "".
Proof.
  intros H. unfold JS.trim.
  assert (Hs : JS.trimStart s = "").
  { induction s as [|c s IH]; [reflexivity|]. simpl in H.
    apply andb_true_iff in H. destruct H as [Hc Hs]. simpl.
    rewrite Hc. now apply IH. }
  now rewrite Hs.
Qed.

Section CatalogFacts.

Context {env : Env}.

(** X10.  In a reachable store, a movie creation answered 201 returns
    the new entry with id [movies.length + 1] and rating 0, and on the
    store it leaves [GET /api/movies/:id] with that id answers 200 with
    the same entry and an empty review list. *)
Theorem X10_created_movie_is_served (st : store) (userId : Z)
    (username : string) (b : body) (id : string) :
  reachable st ->
  Response.status (snd (handle st (addMovieRequest userId username b)))
  = 201%Z ->
  JS.parseInt id = Some (len (movies st) + 1)%Z ->
  let st1 := fst (handle st (addMovieRequest userId username b)) in
  exists m,
    snd (handle st (addMovieRequest userId username b))
    = respond 201 (MovieJson m)
    /\ Movie.id m = (len (movies st) + 1)%Z
    /\ Movie.averageRating m = 0
    /\ handle st1 (movieRequest id) = (st1, respond 200 (MovieJson m)).
Proof.
  intros Hreach.
  change (handle st (addMovieRequest userId username b))
    with (postMovie st (addMovieRequest userId username b)).
  unfold postMovie, authenticated, addMovieRequest.
  cbn [Request.cred Request.payload].
  destruct (movieErrors b); [|discriminate].
  destruct b; try discriminate.
  intros _ Hid. cbv zeta. cbn [fst snd].
  eexists. split; [reflexivity|]. split; [reflexivity|].
  split; [reflexivity|].
  match goal with
  | |- handle ?s _ = _ => change (getMovieById id s (movieRequest id) = (s,
      respond 200
        (MovieJson
           (Movie.mk (len (movies st) + 1) (JS.trim title) genre releaseYear
              (JS.trim director)
              (match cast with Some c => c | None => [] end)
              (orElse synopsis "")
              (orElse posterUrl
                 ("https://via.placeholder.com/300x450?text="
                  ++ encodeURIComponent (JS.trim title))) 0 []))))
  end.
  unfold getMovieById. rewrite Hid. cbn [movies reviews].
  pose proof (reachable_wellFormed Hreach) as Hwf.
  rewrite find_app_none by (apply no_movie_beyond; exact Hwf).
  cbn [find Movie.id JS.eqNum]. rewrite Z.eqb_refl.
  pose proof (no_reviews_beyond Hwf) as Hnone. unfold movieReviews in Hnone.
  change (fun review => JS.eqNum (Review.movieId review)
                          (Some (len (movies st) + 1)%Z))
    with (fun review => (Review.movieId review =? len (movies st) + 1)%Z).
  rewrite Hnone. reflexivity.
Qed.

(** X11.  Catalog entries are never removed or reordered, and the only
    field of an entry a request changes is its [averageRating]: across any
    steps the earlier catalog is, rating apart, a prefix of the later
    one. *)
Theorem X11_catalog_only_grows (st st' : store) :
  steps st st' ->
  exists extra,
    map unrated (movies st') = (map unrated (movies st) ++ extra)%list.
Proof.
  intros Hsteps.
  apply (steps_effects
           (fun s => exists extra,
                       map unrated (movies s)
                       = (map unrated (movies st) ++ extra)%list)
           (st := st) (st' := st')).
  - intros a b [e1 H1] Hab.
    destruct (effect_movies_unrated Hab) as [e2 H2].
    exists (e1 ++ e2)%list. now rewrite H2, H1, app_assoc.
  - exact Hsteps.
  - exists []. now rewrite app_nil_r.
Qed.

(** X12.  In every reachable store each review has a rating in 1..5 and
    references a movie of the catalog, and no account has two reviews of
    the same movie. *)
Theorem X12_stored_reviews_are_valid (st : store) :
  reachable st ->
  (forall r, In r (reviews st) ->
     (1 <= Review.rating r <= 5)%Z
     /\ exists m, In m (movies st) /\ Movie.id m = Review.movieId r)
  /\ NoDup (map reviewPair (reviews st)).
Proof.
  intros H. pose proof (reachable_detailed H) as Hd.
  pose proof (reachable_wellFormed H) as Hw. split.
  - intros r Hr. split; [now apply Hd|now apply Hw].
  - apply Hd.
Qed.

(** X13.  Reviews are never removed, reordered or edited: across any
    steps the earlier review array is a prefix of the later one. *)
Theorem X13_reviews_only_grow (st st' : store) :
  steps st st' ->
  exists extra, reviews st' = (reviews st ++ extra)%list.
Proof.
  intros Hsteps.
  apply (steps_effects
           (fun s => exists extra, reviews s = (reviews st ++ extra)%list)
           (st := st) (st' := st')).
  - intros a b [e1 H1] Hab.
    destruct (effect_reviews_grow Hab) as [e2 H2].
    exists (e1 ++ e2)%list. now rewrite H2, H1, app_assoc.
  - exact Hsteps.
  - exists []. now rewrite app_nil_r.
Qed.

(** X14.  In every reachable store each catalog entry's [averageRating]
    lies between 0 and 5, and is at least 1 once a review references the
    entry. *)
Theorem X14_average_within_stars (st : store) (m : Movie.t) :
  reachable st -> In m (movies st) ->
  0 <= Movie.averageRating m <= 5
  /\ (movieReviews st (Movie.id m) <> [] -> 1 <= Movie.averageRating m).
Proof.
  intros Hreach Hin.
  pose proof (dt_review_ratings (reachable_detailed Hreach)) as Hr.
  destruct (wf_ratings (reachable_wellFormed Hreach) m Hin)
    as [Hcalc|[Hseed Hnone]].
  - rewrite Hcalc. now apply calculateAverageRating_bounds.
  - split; [|intros H; now contradiction H].
    destruct Hseed as [<-|[<-|[<-|[]]]]; simpl; lra.
Qed.

(** X15.  A review whose rating is outside 1..5 or whose text is empty is
    answered 400 with the failing fields, before the movie is looked up:
    the store is unchanged whether or not the movie exists. *)
Theorem X15_invalid_review_rejected (st : store) (id : string) (userId : Z)
    (username : string) (rating : Z) (reviewText now : string) :
  ~ (1 <= rating <= 5)%Z \/ reviewText = "" ->
  exists errors,
    errors <> []
    /\ handle st (addReviewRequest id userId username rating reviewText now)
       = (st, respond 400 (ErrorsJson errors)).
Proof.
  intros Hbad. rewrite handle_addReviewRequest.
  unfold postMovieReview, authenticated, addReviewRequest.
  cbn [Request.cred Request.payload].
  destruct (reviewErrors (ReviewBody rating reviewText)) as [|e errors] eqn:E.
  - destruct (reviewErrors_nil _ E) as (r & t & Hb & Hr & Ht).
    injection Hb as <- <-. destruct Hbad; contradiction.
  - exists (e :: errors). split; [discriminate|reflexivity].
Qed.


(** X16.  When the verified token names an account that is not in
    [users], a valid first review of an existing movie is appended and
    the movie's average recomputed, and only then the handler fails on
    the missing author: the answer is 500 "Error creating review" while
    the review stays stored. *)
Theorem X16_review_kept_on_missing_author (st : store) (id : string)
    (userId : Z) (username : string) (rating : Z) (reviewText now : string)
    (movieId : Z) (movie : Movie.t) :
  (1 <= rating <= 5)%Z -> reviewText <> "" ->
  JS.parseInt id = Some movieId ->
  find (fun m => (Movie.id m =? movieId)%Z) (movies st) = Some movie ->
  find (fun r => (Review.movieId r =? movieId)%Z
                 && (Review.userId r =? userId)%Z) (reviews st) = None ->
  find (fun u => (User.id u =? userId)%Z) (users st) = None ->
  let newReview :=
    Review.mk (len (reviews st) + 1) movieId userId rating
      (JS.trim reviewText) now in
  let r := handle st (addReviewRequest id userId username rating reviewText now) in
  snd r = respond 500 (ErrorJson "Error creating review")
  /\ reviews (fst r) = (reviews st ++ [newReview])%list
  /\ fst r
     = updateAverage
         (mkStore (movies st) (users st) (reviews st ++ [newReview])
            (watchlists st)) movieId.
Proof.
  intros Hr Ht Hp Hm Hnone Hu newReview r. subst r newReview.
  rewrite handle_addReviewRequest.
  unfold postMovieReview, authenticated, addReviewRequest.
  cbn [Request.cred Request.payload Request.now].
  rewrite (reviewErrors_valid Hr Ht), Hp.
  change (fun m => JS.eqNum (Movie.id m) (Some movieId))
    with (fun m => (Movie.id m =? movieId)%Z).
  rewrite Hm, Hnone, users_updateAverage. cbn [users]. rewrite Hu.
  cbn [fst snd]. repeat split.
Qed.

(** X17.  A review text made of white space only passes validation, which
    tests the text before trimming it: when such a review is answered 201
    the stored text is the empty string. *)
Theorem X17_blank_review_text_stored_empty (st : store) (id : string)
    (userId : Z) (username : string) (rating : Z) (reviewText now : string) :
  (1 <= rating <= 5)%Z -> reviewText <> "" -> onlySpaces reviewText = true ->
  Response.status
    (snd (handle st
            (addReviewRequest id userId username rating reviewText now)))
  = 201%Z ->
  exists r,
    reviews (fst (handle st
                    (addReviewRequest id userId username rating reviewText now)))
    = (reviews st ++ [r])%list
    /\ Review.reviewText r = "".
Proof.
  intros Hr Ht Hs. rewrite handle_addReviewRequest. intros Hst.
  destruct (postMovieReview_created st id userId username now Hr Ht Hst)
    as (movieId & user & m & Hp & Hm & Hu & Heq).
  cbv zeta in Heq. rewrite Heq. cbn [fst]. unfold updateAverage.
  cbn [reviews]. eexists. split; [reflexivity|].
  cbn [Review.reviewText]. now apply trim_onlySpaces.
Qed.

End CatalogFacts.

(** ** Listing, further *)


Section ListingFacts.

Context {env : Env}.



(** X19.  Whatever the page and the limit, every entry of a listing's
    page is an entry of the catalog that passes each filter the query
    asks for. *)
Theorem X19_page_entries_match (st : store) (q : Query.t) (m : Movie.t) :
  In m (pageOfResponse (snd (handle st (listRequest q)))) ->
  In m (movies st) /\ matchesAll q m = true.
Proof.
  rewrite handle_listRequest. cbn. unfold JS.slice. intros Hin.
  apply In_firstn, In_skipn in Hin. unfold sortedMovies in Hin.
  apply (Permutation_in _ (sort_perm _ _)) in Hin.
  rewrite applyFilters_matchesAll in Hin. now apply filter_In in Hin.
Qed.


(** X22.  A listing with [limit=0] answers 200 with an empty page and
    [totalPages] null (the division by zero), while [totalCount] is still
    the size of the filtered catalog. *)
Theorem X22_zero_limit (st : store) (q : Query.t) :
  limitOf q = 0%Z ->
  let r := snd (handle st (listRequest q)) in
  Response.status r = 200%Z
  /\ pageOfResponse r = []
  /\ totalPagesOfResponse r = None
  /\ totalCountOf r = Some (len (filter (matchesAll q) (movies st))).
Proof.
  intros H0 r. subst r. rewrite handle_listRequest. unfold getMovies.
  cbn [snd Response.status respond pageOfResponse totalPagesOfResponse
       totalCountOf Response.json Request.query listRequest].
  rewrite H0, Z.mul_0_r, len_sortedMovies.
  split; [reflexivity|]. split; [|split; reflexivity].
  rewrite (slice_window (sortedMovies st q) (start := 0) (limit := 0))
    by lia.
  reflexivity.
Qed.

End ListingFacts.

(** ** Watchlists and profiles, further *)

Lemma filter_all_true {A} (f : A -> bool) (l : list A) :
  (forall x, In x l -> f x = true) -> filter f l = l.
Proof.
  intros H. induction l as [|x l IH]; [reflexivity|]. simpl.
  rewrite (H x (or_introl eq_refl)), IH; [reflexivity|].
  intros y Hy. apply H. now right.
Qed.

Lemma splice1_filter {A B} (p : A -> bool) (g : A -> B) (l : list A) :
  NoDup (map g l) ->
  (forall x y, p x = true -> p y = true -> g x = g y) ->
  JS.findIndex p l <> (-1)%Z ->
  JS.splice1 l (JS.findIndex p l) = filter (fun x => negb (p x)) l.
Proof.
  intros Hnd Hsame Hidx.
  pose proof (findIndex_splice1_none p g l Hnd Hsame Hidx) as Hnone.
  rewrite findIndex_none in Hnone.
  destruct (findIndex_found p l Hidx) as (y & Hnth & Hpy & _ & _).
  pose proof (firstn_skipn_middle _ _ Hnth) as Hl.
  unfold JS.splice1 in *.
  remember (firstn (Z.to_nat (JS.findIndex p l)) l) as A0.
  remember (skipn (S (Z.to_nat (JS.findIndex p l))) l) as B0.
  rewrite <- Hl, filter_app. simpl. rewrite Hpy. simpl.
  rewrite <- filter_app. symmetry. apply filter_all_true.
  intros x Hx. now rewrite (Hnone x Hx).
Qed.

Section WatchlistFacts.

Context {env : Env}.

(** X23.  When an addition to the watchlist is answered 201, the
    account's watchlist as [GET /api/users/:id/watchlist] reports it on
    the new store is the one reported before followed by the new item,
    joined with its movie. *)
Theorem X23_added_item_is_listed (st : store) (id : string) (userId : Z)
    (username : string) (movieId : Z) (now : string) :
  Response.status
    (snd (handle st (addToWatchlistRequest id userId username movieId now)))
  = 201%Z ->
  let st1 :=
    fst (handle st (addToWatchlistRequest id userId username movieId now)) in
  exists item movie before,
    snd (handle st (addToWatchlistRequest id userId username movieId now))
    = respond 201 (WatchlistItemJson item movie)
    /\ WatchlistItem.movieId item = movieId
    /\ Movie.id movie = movieId
    /\ snd (handle st (watchlistRequest id userId username))
       = respond 200 (WatchlistJson before)
    /\ snd (handle st1 (watchlistRequest id userId username))
       = respond 200 (WatchlistJson (before ++ [(item, Some movie)])).
Proof.
  rewrite handle_addToWatchlistRequest.
  change (handle st (watchlistRequest id userId username))
    with (getWatchlist id st (watchlistRequest id userId username)).
  unfold postWatchlist, authenticated, addToWatchlistRequest.
  cbn [Request.cred Request.payload Request.now].
  destruct (watchlistErrors (WatchlistBody movieId)); [|discriminate].
  destruct (JS.parseInt id) as [uid|] eqn:Hp; [|discriminate].
  destruct (Z.eqb_spec userId uid) as [<-|]; [|discriminate]. cbn [negb].
  destruct (find _ (movies st)) as [movie|] eqn:Hm; [|discriminate].
  destruct (find _ (watchlists st)) as [w|] eqn:Hw; [discriminate|].
  intros _. cbv zeta. cbn [fst snd].
  match goal with
  | |- context [handle ?s (watchlistRequest id userId username)] =>
      change (handle s (watchlistRequest id userId username))
        with (getWatchlist id s (watchlistRequest id userId username))
  end.
  unfold getWatchlist, authenticated, watchlistRequest.
  cbn [Request.cred]. rewrite Hp. cbn [JS.eqNum]. rewrite Z.eqb_refl.
  cbn [negb snd movies watchlists].
  eexists _, movie, _. split; [reflexivity|]. split; [reflexivity|].
  split; [apply find_some in Hm; now apply Z.eqb_eq|].
  split; [reflexivity|].
  rewrite filter_app, map_app.
  cbn [filter WatchlistItem.userId WatchlistItem.movieId map app].
  rewrite Z.eqb_refl. cbn [map app WatchlistItem.movieId]. now rewrite Hm.
Qed.

(** X24.  In a reachable store, a removal answered 200 deletes exactly
    the items of that account for that movie and keeps every other item,
    in order; movies, accounts and reviews are untouched. *)
Theorem X24_removal_filters_the_pair (st : store) (id : string) (userId : Z)
    (username movieParam : string) :
  reachable st ->
  Response.status
    (snd (handle st (removeFromWatchlistRequest id userId username movieParam)))
  = 200%Z ->
  exists movieId,
    JS.parseInt id = Some userId
    /\ JS.parseInt movieParam = Some movieId
    /\ fst (handle st
              (removeFromWatchlistRequest id userId username movieParam))
       = mkStore (movies st) (users st) (reviews st)
           (filter (fun w => negb ((WatchlistItem.userId w =? userId)%Z
                                   && (WatchlistItem.movieId w =? movieId)%Z))
              (watchlists st)).
Proof.
  intros Hreach. rewrite handle_removeFromWatchlistRequest.
  unfold deleteWatchlist, authenticated, removeFromWatchlistRequest.
  cbn [Request.cred].
  destruct (JS.eqNum userId (JS.parseInt id)) eqn:Hu; [|discriminate].
  cbn [negb].
  set (p := fun item =>
              JS.eqNum (WatchlistItem.userId item) (JS.parseInt id)
              && JS.eqNum (WatchlistItem.movieId item)
                   (JS.parseInt movieParam)).
  destruct (JS.findIndex p (watchlists st) =? -1)%Z eqn:E; [discriminate|].
  apply Z.eqb_neq in E. intros _. cbn [fst].
  destruct (findIndex_found p (watchlists st) E) as (y & _ & Hpy & _ & _).
  unfold p in Hpy. apply andb_true_iff in Hpy. destruct Hpy as [_ Hym].
  destruct (JS.parseInt id) as [u|] eqn:Hp; [|discriminate].
  apply eqNum_Some in Hu. subst u.
  destruct (JS.parseInt movieParam) as [movieId|] eqn:Hq; [|discriminate].
  exists movieId. split; [reflexivity|]. split; [reflexivity|]. f_equal.
  apply (splice1_filter p
           (fun w => (WatchlistItem.userId w, WatchlistItem.movieId w))).
  - apply (wf_watchlist_pairs (reachable_wellFormed Hreach)).
  - intros a b Ha Hb. unfold p in Ha, Hb.
    apply andb_true_iff in Ha, Hb. destruct Ha as [Ha1 Ha2], Hb as [Hb1 Hb2].
    apply eqNum_Some in Ha1, Ha2, Hb1, Hb2. congruence.
  - exact E.
Qed.

(** X25.  In a reachable store the owner's [GET /api/users/:id/watchlist]
    answers 200 with that account's items in insertion order, and each
    item comes with its movie: no item refers to a missing movie. *)
Theorem X25_watchlist_items_have_movies (st : store) (id : string)
    (userId : Z) (username : string) :
  reachable st ->
  JS.parseInt id = Some userId ->
  exists items,
    handle st (watchlistRequest id userId username)
    = (st, respond 200 (WatchlistJson items))
    /\ map fst items
       = filter (fun w => (WatchlistItem.userId w =? userId)%Z) (watchlists st)
    /\ forall item found, In (item, found) items ->
         exists movie,
           found = Some movie /\ In movie (movies st)
           /\ Movie.id movie = WatchlistItem.movieId item.
Proof.
  intros Hreach Hp.
  change (handle st (watchlistRequest id userId username))
    with (getWatchlist id st (watchlistRequest id userId username)).
  unfold getWatchlist, authenticated, watchlistRequest.
  cbn [Request.cred]. rewrite Hp. cbn [JS.eqNum]. rewrite Z.eqb_refl.
  cbn [negb]. eexists. split; [reflexivity|]. split.
  - rewrite map_map. cbn [fst]. apply map_id.
  - intros item found Hin. apply in_map_iff in Hin.
    destruct Hin as (w & Hw & Hin). injection Hw as <- <-.
    apply filter_In in Hin. destruct Hin as [Hin _].
    pose proof (dt_watch_movies (reachable_detailed Hreach) w Hin) as Hmv.
    apply id_in_movies in Hmv. destruct Hmv as (m & Hm & Hid).
    destruct (find_exists
                (fun m => (Movie.id m =? WatchlistItem.movieId w)%Z)
                (movies st) m Hm) as [movie Hf]; [now apply Z.eqb_eq|].
    exists movie. rewrite Hf. apply find_some in Hf.
    destruct Hf as [H1 H2]. apply Z.eqb_eq in H2. now repeat split.
Qed.

(** X26.  [GET /api/users/:id] has no ownership check: for any verified
    token, whose ever it is, an existing account's profile is answered
    200 with its email and join date; in a reachable store each of the
    account's reviews comes with the title and poster of its movie. *)
Theorem X26_profile_open_to_any_token (st : store) (id : string)
    (userId tokenUserId : Z) (tokenName : string) (user : User.t) :
  reachable st ->
  JS.parseInt id = Some userId ->
  find (fun u => (User.id u =? userId)%Z) (users st) = Some user ->
  exists rs,
    handle st (profileRequest id tokenUserId tokenName)
    = (st, respond 200 (ProfileJson (publicUser user) (User.joinDate user) rs))
    /\ map ReviewWithMovie.review rs
       = filter (fun r => (Review.userId r =? userId)%Z) (reviews st)
    /\ forall r, In r rs ->
         exists movie,
           In movie (movies st)
           /\ Movie.id movie = Review.movieId (ReviewWithMovie.review r)
           /\ ReviewWithMovie.movieTitle r = Movie.title movie
           /\ ReviewWithMovie.moviePoster r = Some (Movie.posterUrl movie).
Proof.
  intros Hreach Hp Hu.
  change (handle st (profileRequest id tokenUserId tokenName))
    with (getUser id st (profileRequest id tokenUserId tokenName)).
  unfold getUser, authenticated, profileRequest.
  cbn [Request.cred]. rewrite Hp.
  change (fun u => JS.eqNum (User.id u) (Some userId))
    with (fun u => (User.id u =? userId)%Z).
  rewrite Hu. eexists. split; [reflexivity|]. split.
  - rewrite map_map.
    rewrite (map_ext _ (fun r => r)); [apply map_id|].
    intros r. unfold withMovie. now destruct (find _ (movies st)).
  - intros r Hin. apply in_map_iff in Hin. destruct Hin as (x & <- & Hin).
    apply filter_In in Hin. destruct Hin as [Hin _].
    destruct (wf_review_movies (reachable_wellFormed Hreach) x Hin)
      as (m & Hm & Hid).
    unfold withMovie.
    destruct (find_exists (fun m => (Movie.id m =? Review.movieId x)%Z)
                (movies st) m Hm) as [movie Hf]; [now apply Z.eqb_eq|].
    rewrite Hf. apply find_some in Hf. destruct Hf as [H1 H2].
    apply Z.eqb_eq in H2. exists movie. now repeat split.
Qed.

End WatchlistFacts.

(** ** The further properties on the sample session *)

Lemma includes_refl (s : string) : JS.includes s s = true.
Proof.
  assert (H : String.prefix s s = true)
    by (induction s as [|c s IH]; simpl;
        [reflexivity|destruct (ascii_dec c c); [exact IH|contradiction]]).
  destruct s; simpl in *; [reflexivity|]. now rewrite H.
Qed.

Lemma includes_after (a t s : string) :
  JS.includes t s = true -> JS.includes (a ++ t) s = true.
Proof.
  intros H. induction a as [|c a IH]; [exact H|].
  cbn [String.append JS.includes]. rewrite IH. apply orb_true_r.
Qed.

Lemma sample_bcrypt_accepts (p s : string) :
  bcrypt_compare (Env := sampleEnv) p (bcrypt_hash (Env := sampleEnv) p s)
  = true.
Proof.
  cbn [bcrypt_compare bcrypt_hash sampleEnv].
  apply includes_after, includes_after, includes_refl.
Qed.

Lemma steps_run {env : Env} (st : store) (reqs : list Request.t) :
  steps st (run st reqs).
Proof.
  assert (H : forall a, steps st a -> steps st (run a reqs)).
  { induction reqs as [|req reqs IH]; intros a Ha; [exact Ha|].
    apply IH. now apply steps_handle. }
  apply H, steps_refl.
Defined.

Lemma annStore_reachable : reachable (env := sampleEnv) annStore.
Proof. apply reachable_run, reach_init. Defined.

Lemma X1_witness :
  fst (handle (env := sampleEnv) sampleStore (listRequest secondPageByRating))
  = sampleStore.
Proof. apply (X1_get_is_read_only (env := sampleEnv)). reflexivity. Defined.

Lemma X2_witness :
  movies (fst (handle (env := sampleEnv) sampleStore anonymousAddMovie))
  = movies sampleStore
  /\ users (fst (handle (env := sampleEnv) sampleStore anonymousAddMovie))
     = users sampleStore.
Proof.
  assert (Hcred : forall userId username,
            Request.cred anonymousAddMovie <> ValidToken userId username)
    by (intros userId username; discriminate).
  destruct (X2_no_token_no_write (env := sampleEnv) sampleStore
              anonymousAddMovie Hcred) as (Hm & _ & _ & Hu).
  split; [exact Hm|]. reflexivity.
Defined.


Lemma X4_witness :
  handle (env := sampleEnv) sampleStore (watchlistRequest "2" 1 "ann")
  = (sampleStore,
     respond 403 (ErrorJson "Not authorized to view this watchlist"))
  /\ handle (env := sampleEnv) sampleStore
       (addToWatchlistRequest "2" 1 "ann" 3 "")
     = (sampleStore,
        respond 403 (ErrorJson "Not authorized to modify this watchlist")).
Proof.
  destruct (@X4_foreign_account_forbidden sampleEnv sampleStore "2" 1 "ann" 3
              "1" "" NoBody eq_refl) as (Hget & _ & Hadd & _).
  split; [exact Hget|]. apply Hadd. lia.
Defined.

Lemma X5_witness :
  exists user,
    handle (env := sampleEnv) annStore
      (loginRequest "ann@example.org" "secret1" "2024-01-05T00:00:00.000Z")
    = (annStore,
       respond 200
         (AuthJson "Login successful"
            (jwt_sign (Env := sampleEnv) (PublicUser.id user)
               (PublicUser.username user) "2024-01-05T00:00:00.000Z")
            user)).
Proof.
  destruct (@X5_register_then_login sampleEnv initialStore "ann"
              "ann@example.org" "secret1" "2024-01-01T00:00:00.000Z" "salt"
              "2024-01-05T00:00:00.000Z" sample_bcrypt_accepts eq_refl)
    as (user & _ & Hlogin).
  exists user. exact Hlogin.
Defined.

Lemma X7_witness :
  exists extra,
    map fixedFields (users sampleStore)
    = (map fixedFields (users initialStore) ++ extra)%list.
Proof.
  apply (X7_account_fields_persist (env := sampleEnv)).
  apply steps_run.
Defined.

Lemma X8_witness :
  map Review.id (reviews sampleStore)
  = map Z.of_nat (seq 1 (List.length (reviews sampleStore))).
Proof.
  destruct (X8_append_only_ids (env := sampleEnv) sampleStore_reachable)
    as (_ & _ & H).
  exact H.
Defined.

Lemma X9_witness :
  fst (handle (env := sampleEnv) annStore
         (loginRequest "ann@example.org" "wrong" ""))
  = annStore.
Proof.
  destruct (@X9_login_outcomes sampleEnv annStore "ann@example.org" "wrong" ""
              eq_refl) as [H _].
  exact H.
Defined.

Lemma X10_witness :
  exists m,
    Movie.id m = 4%Z
    /\ handle (env := sampleEnv)
         (fst (handle (env := sampleEnv) annStore
                 (addMovieRequest 1 "ann" alienBody)))
         (movieRequest "4")
       = (fst (handle (env := sampleEnv) annStore
                 (addMovieRequest 1 "ann" alienBody)),
          respond 200 (MovieJson m)).
Proof.
  destruct (@X10_created_movie_is_served sampleEnv annStore 1 "ann" alienBody
              "4" annStore_reachable eq_refl eq_refl)
    as (m & _ & Hid & _ & Hget).
  exists m. split; [exact Hid|exact Hget].
Defined.

Lemma X11_witness :
  exists extra,
    map unrated (movies sampleStore)
    = (map unrated (movies initialStore) ++ extra)%list.
Proof.
  apply (X11_catalog_only_grows (env := sampleEnv)). apply steps_run.
Defined.

Lemma X12_witness : NoDup (map reviewPair (reviews sampleStore)).
Proof.
  destruct (X12_stored_reviews_are_valid (env := sampleEnv)
              sampleStore_reachable) as [_ H].
  exact H.
Defined.

Lemma X13_witness :
  exists extra, reviews sampleStore = (reviews annStore ++ extra)%list.
Proof.
  apply (X13_reviews_only_grow (env := sampleEnv)).
  apply (steps_run (env := sampleEnv) annStore
           [ addReviewRequest "1" 1 "ann" 5 "great" "2024-01-02T00:00:00.000Z";
             addToWatchlistRequest "1" 1 "ann" 1 "2024-01-03T00:00:00.000Z";
             addToWatchlistRequest "1" 1 "ann" 2 "2024-01-04T00:00:00.000Z" ]).
Defined.

Lemma X14_witness :
  0 <= Movie.averageRating reviewedMovie <= 5
  /\ (movieReviews sampleStore (Movie.id reviewedMovie) <> [] ->
      1 <= Movie.averageRating reviewedMovie).
Proof.
  apply (@X14_average_within_stars sampleEnv sampleStore reviewedMovie
           sampleStore_reachable).
  left. reflexivity.
Defined.

Lemma X15_witness :
  exists errors,
    errors <> []
    /\ handle (env := sampleEnv) annStore
         (addReviewRequest "99" 1 "ann" 9 "great" "")
       = (annStore, respond 400 (ErrorsJson errors)).
Proof.
  apply (X15_invalid_review_rejected (env := sampleEnv)). left. lia.
Defined.

Lemma X16_witness :
  snd (handle (env := sampleEnv) initialStore bobReviews)
  = respond 500 (ErrorJson "Error creating review")
  /\ List.length (reviews (fst (handle (env := sampleEnv) initialStore
                                  bobReviews))) = 1%nat.
Proof.
  assert (Hr : (1 <= 4 <= 5)%Z) by lia.
  assert (Ht : "fine" <> "") by discriminate.
  destruct (@X16_review_kept_on_missing_author sampleEnv initialStore "2" 7
              "bob" 4 "fine" "2024-02-01T00:00:00.000Z" 2
              (nth 1 seedMovies reviewedMovie) Hr Ht eq_refl eq_refl eq_refl
              eq_refl) as (Hresp & Hrev & _).
  split; [exact Hresp|].
  change (handle (env := sampleEnv) initialStore bobReviews)
    with (handle (env := sampleEnv) initialStore
            (addReviewRequest "2" 7 "bob" 4 "fine" "2024-02-01T00:00:00.000Z")).
  now rewrite Hrev.
Defined.

Lemma X17_witness :
  exists r,
    reviews (fst (handle (env := sampleEnv) annStore
                    (addReviewRequest "1" 1 "ann" 3 "  " "")))
    = (reviews annStore ++ [r])%list
    /\ Review.reviewText r = "".
Proof.
  assert (Hr : (1 <= 3 <= 5)%Z) by lia.
  assert (Ht : "  " <> "") by discriminate.
  exact (@X17_blank_review_text_stored_empty sampleEnv annStore "1" 1 "ann" 3
           "  " "" Hr Ht eq_refl eq_refl).
Defined.


Lemma X19_witness :
  In lastSeed (movies sampleStore)
  /\ matchesAll secondPageByRating lastSeed = true.
Proof.
  apply (X19_page_entries_match (env := sampleEnv) sampleStore
           secondPageByRating).
  left. reflexivity.
Defined.


Lemma X22_witness :
  pageOfResponse
    (snd (handle (env := sampleEnv) sampleStore (listRequest zeroLimit))) = []
  /\ totalPagesOfResponse
       (snd (handle (env := sampleEnv) sampleStore (listRequest zeroLimit)))
     = None.
Proof.
  destruct (@X22_zero_limit sampleEnv sampleStore zeroLimit eq_refl)
    as (_ & Hpage & Hpages & _).
  split; [exact Hpage|exact Hpages].
Defined.

Lemma X23_witness :
  exists item movie before,
    snd (handle (env := sampleEnv)
           (fst (handle (env := sampleEnv) annStore
                   (addToWatchlistRequest "1" 1 "ann" 3 "")))
           (watchlistRequest "1" 1 "ann"))
    = respond 200 (WatchlistJson (before ++ [(item, Some movie)])).
Proof.
  destruct (@X23_added_item_is_listed sampleEnv annStore "1" 1 "ann" 3 ""
              eq_refl) as (item & movie & before & _ & _ & _ & _ & H).
  exists item, movie, before. exact H.
Defined.

Lemma X24_witness :
  exists movieId,
    JS.parseInt "1" = Some 1%Z
    /\ JS.parseInt "2" = Some movieId
    /\ fst (handle (env := sampleEnv) sampleStore
              (removeFromWatchlistRequest "1" 1 "ann" "2"))
       = mkStore (movies sampleStore) (users sampleStore)
           (reviews sampleStore)
           (filter (fun w => negb ((WatchlistItem.userId w =? 1)%Z
                                   && (WatchlistItem.movieId w =? movieId)%Z))
              (watchlists sampleStore)).
Proof.
  exact (@X24_removal_filters_the_pair sampleEnv sampleStore "1" 1 "ann" "2"
           sampleStore_reachable eq_refl).
Defined.

Lemma X25_witness :
  exists items,
    handle (env := sampleEnv) sampleStore (watchlistRequest "1" 1 "ann")
    = (sampleStore, respond 200 (WatchlistJson items))
    /\ List.length items = 2%nat.
Proof.
  destruct (@X25_watchlist_items_have_movies sampleEnv sampleStore "1" 1 "ann"
              sampleStore_reachable eq_refl) as (items & Hget & Hfst & _).
  exists items. split; [exact Hget|].
  rewrite <- (length_map fst), Hfst. reflexivity.
Defined.

Lemma X26_witness :
  exists user rs,
    handle (env := sampleEnv) sampleStore (profileRequest "1" 7 "bob")
    = (sampleStore,
       respond 200 (ProfileJson (publicUser user) (User.joinDate user) rs)).
Proof.
  destruct (@X26_profile_open_to_any_token sampleEnv sampleStore "1" 1 7 "bob"
              (hd (User.mk 0 "" "" "" "" "") (users sampleStore))
              sampleStore_reachable eq_refl eq_refl) as (rs & H & _).
  eexists _, rs. exact H.
Defined.

Lemma X27_witness :
  Double.tenths 21 20 = Some 11%Z.
Proof.
  assert (Hn : (1 <= 20 <= 50)%Z) by lia.
  assert (Hs : (20 <= 21 <= 5 * 20)%Z) by lia.
  rewrite (Double_rounding_agrees Hn Hs). reflexivity.
Defined.

(** ** Ratings sent as strings *)

Lemma fold_plus_numbers (zs : list Z) (acc : Z) :
  fold_left Rating.plus (map Rating.Num zs) (Rating.Num acc)
  = Rating.Num (fold_left Z.add zs acc).
Proof.
  revert acc. induction zs as [|z zs IH]; intros acc; [reflexivity|].
  simpl. apply IH.
Qed.

(** On a JSON number the validator over numbers and strings is the one of
    [reviewErrors]. *)
Lemma isInt_of_number (rating : Z) (reviewText : string) :
  Rating.isInt 1 5 (Rating.Num rating)
  = negb (existsb (String.eqb "rating")
            (reviewErrors (ReviewBody rating reviewText))).
Proof.
  unfold Rating.isInt, reviewErrors.
  destruct ((1 <=? rating)%Z && (rating <=? 5)%Z); simpl; [|reflexivity].
  now destruct (String.eqb reviewText "").
Qed.

Lemma fold_add_ratings (R : list Review.t) (acc : Z) :
  fold_left Z.add (map Review.rating R) acc
  = fold_left (fun acc review => (acc + Review.rating review)%Z) R acc.
Proof.
  revert acc. induction R as [|r R IH]; intros acc; [reflexivity|apply IH].
Qed.

(** On ratings that are JSON numbers the arithmetic over numbers and
    strings is that of [calculateAverageRating] over integers. *)
Lemma average_of_numbers (st : store) (movieId : Z) :
  Rating.average (storedRatings st movieId)
  = Some (calculateAverageRating st movieId).
Proof.
  unfold Rating.average, storedRatings, calculateAverageRating.
  rewrite length_map.
  destruct (List.length (movieReviews st movieId) =? 0)%nat; [reflexivity|].
  rewrite <- (map_map Review.rating Rating.Num), fold_plus_numbers.
  cbn [Rating.toNumber]. now rewrite fold_add_ratings.
Qed.

(** C1, as stated, fails on ratings that passed the validator: the string
    ["5"] followed by the number 4 is summed to the text ["054"], and the
    result is 27, not the mean 4.5. *)
Lemma C1_string_rating_counterexample :
  ~ (forall ratings,
       Forall (fun v => Rating.isInt 1 5 v = true) ratings ->
       claimedAverage ratings (Rating.average ratings)).
Proof.
  intros H.
  destruct (H [Rating.Str "5"; Rating.Num 4]) as (avg & Havg & Hround).
  - repeat constructor.
  - vm_compute in Havg. injection Havg as <-.
    destruct Hround as (_ & Hlo & _).
    vm_compute in Hlo. apply Hlo. reflexivity.
Qed.
